(** * eta.core.data: file sequences, data records and record containers

    A shallow embedding of [src/eta/core/data.py].

    - [FileSequence] embeds [DataFileSequence]: a printf-style pattern and a
      closed interval of indices, with bound setters, [gen_path] and the
      iterator protocol ([__iter__], [__next__]).  The object is mutated in
      place by the source, so every method is a function from the object
      before the call to the object after it, paired with the value returned
      or the exception raised.
    - [Records] embeds [BaseDataRecord], [LabeledVideoRecord] and
      [DataRecords]: construction of records from dictionaries, pruning of
      unset optional attributes, lookup tables and [cull].

    Python integers are unbounded and are modelled by [Z]. *)

From Stdlib Require Import ZArith List String Ascii Bool Lia.
From Stdlib Require Import DecimalString Sorted.
Import ListNotations.

Set Implicit Arguments.
Set Warnings "-register-all".

(** ** Results of calls that may raise *)

Inductive result (E A : Type) : Type :=
| Ok (a : A)
| Raise (e : E).

Arguments Ok {E A} a.
Arguments Raise {E A} e.

Definition is_ok {E A : Type} (r : result E A) : bool :=
  match r with Ok _ => true | Raise _ => false end.

(** * DataFileSequence *)

Module FileSequence.

Open Scope Z_scope.

(** The messages of the [DataFileSequenceError]s raised in the class, one
    constructor per [raise] statement. *)
Inductive message : Type :=
| NoMatchingFiles (sequence : string)
    (* "Sequence '%s' did not match any files on disk" *)
| ImmutableBounds
    (* "Cannot set bounds of an immutable sequence." *)
| IndexOutOfBounds (index lower upper : Z)
    (* "Index %d out of bounds [%d, %d]" *)
| NegativeIndex
    (* "Indices must be nonnegative" *)
| NonAdjacentIndex (index lower upper : Z).
    (* "Index %d out of bounds [%d, %d]; mutable sequences can be extended
       at most one index above/below." *)

Inductive exception : Type :=
| DataFileSequenceError (msg : message)
| StopIteration
| TypeError.   (* [None += 1] in [__next__] without a preceding [__iter__] *)

(** The instance attributes set by [__init__].  [_extension] is computed from
    the pattern once and never read by the methods below; it is left out. *)
Record DataFileSequence : Type := mkSeq {
  sequence : string;
  immutable_bounds : bool;
  _lower_bound : Z;
  _upper_bound : Z;
  _iter_index : option Z
}.

Definition with_lower (v : Z) (self : DataFileSequence) : DataFileSequence :=
  mkSeq (sequence self) (immutable_bounds self) v (_upper_bound self)
        (_iter_index self).

Definition with_upper (v : Z) (self : DataFileSequence) : DataFileSequence :=
  mkSeq (sequence self) (immutable_bounds self) (_lower_bound self) v
        (_iter_index self).

Definition with_iter (i : option Z) (self : DataFileSequence)
  : DataFileSequence :=
  mkSeq (sequence self) (immutable_bounds self) (_lower_bound self)
        (_upper_bound self) i.

(** ** Methods as state transformers *)

(** A method takes the object and gives the object after the call together
    with its outcome.  An exception keeps the mutations made before it. *)
Definition method (A : Type) : Type :=
  DataFileSequence -> DataFileSequence * result exception A.

Definition ret {A : Type} (a : A) : method A := fun self => (self, Ok a).

Definition raise {A : Type} (e : exception) : method A :=
  fun self => (self, Raise e).

Definition bind {A B : Type} (m : method A) (k : A -> method B) : method B :=
  fun self =>
    match m self with
    | (self', Ok a) => k a self'
    | (self', Raise e) => (self', Raise e)
    end.

Definition get : method DataFileSequence := fun self => (self, Ok self).

Definition modify (f : DataFileSequence -> DataFileSequence) : method unit :=
  fun self => (f self, Ok tt).

Notation "x <- m ;; k" := (bind m (fun x => k))
  (at level 100, m at next level, right associativity).
Notation "m ;;; k" := (bind m (fun _ => k))
  (at level 100, right associativity).

Definition state_after {A : Type} (r : DataFileSequence * result exception A)
  : DataFileSequence := fst r.

Definition outcome {A : Type} (r : DataFileSequence * result exception A)
  : result exception A := snd r.

Section Methods.

(** [format pattern index] is Python's [pattern % index] for a pattern with
    one integer placeholder. *)
Variable format : string -> Z -> string.

(** The indices of the files on disk that match a pattern, as found by the
    directory scan. *)
Variable matching_indices : string -> list Z.

(** Modelled from the spec: [eta.core.utils.parse_bounds_from_pattern] is not
    among the sources.  The bounds are "a closed index interval
    [lower_bound, upper_bound] inferred by scanning matching files on disk":
    the smallest and the largest matching index, and [(None, None)] when no
    file matches. *)
Definition parse_bounds_from_pattern (patt : string) : option Z * option Z :=
  match matching_indices patt with
  | [] => (None, None)
  | i :: rest => (Some (fold_right Z.min i rest), Some (fold_right Z.max i rest))
  end.

(** [__init__(self, sequence, immutable_bounds=True)] *)
Definition __init__ (sequence : string) (immutable_bounds : bool)
  : result exception DataFileSequence :=
  match parse_bounds_from_pattern sequence with
  | (Some lower, Some upper) =>
      Ok (mkSeq sequence immutable_bounds lower upper None)
  | _ => Raise (DataFileSequenceError (NoMatchingFiles sequence))
  end.

(** The [lower_bound] and [upper_bound] properties. *)
Definition lower_bound (self : DataFileSequence) : Z := _lower_bound self.
Definition upper_bound (self : DataFileSequence) : Z := _upper_bound self.

(** [@lower_bound.setter] *)
Definition set_lower_bound (value : Z) : method unit :=
  self <- get ;;
  if immutable_bounds self then
    raise (DataFileSequenceError ImmutableBounds)
  else modify (with_lower (Z.min value (upper_bound self))).

(** [@upper_bound.setter] *)
Definition set_upper_bound (value : Z) : method unit :=
  self <- get ;;
  if immutable_bounds self then
    raise (DataFileSequenceError ImmutableBounds)
  else modify (with_upper (Z.max value (lower_bound self))).

Definition starts_at_zero (self : DataFileSequence) : bool :=
  _lower_bound self =? 0.

Definition starts_at_one (self : DataFileSequence) : bool :=
  _lower_bound self =? 1.

(** [check_bounds(self, index)] *)
Definition check_bounds (index : Z) (self : DataFileSequence) : bool :=
  if (index <? lower_bound self) || (index >? upper_bound self) then false
  else true.

(** [gen_path(self, index)] *)
Definition gen_path (index : Z) : method string :=
  self <- get ;;
  (if immutable_bounds self then
     if negb (check_bounds index self) then
       raise (DataFileSequenceError
                (IndexOutOfBounds index (lower_bound self) (upper_bound self)))
     else ret tt
   else if index <? 0 then
     raise (DataFileSequenceError NegativeIndex)
   else if index =? lower_bound self - 1 then
     modify (with_lower index)
   else if index =? upper_bound self + 1 then
     modify (with_upper index)
   else if negb (check_bounds index self) then
     raise (DataFileSequenceError
              (NonAdjacentIndex index (lower_bound self) (upper_bound self)))
   else ret tt) ;;;
  ret (format (sequence self) index).

(** [__getitem__(self, index)] *)
Definition __getitem__ (index : Z) : method string := gen_path index.

(** [__iter__(self)]: resets the cursor; the object is its own iterator. *)
Definition __iter__ : method unit :=
  modify (fun self => with_iter (Some (_lower_bound self - 1)) self).

(** [__next__(self)] *)
Definition __next__ : method string :=
  self <- get ;;
  match _iter_index self with
  | None => raise TypeError
  | Some i =>
      modify (with_iter (Some (i + 1))) ;;;
      self <- get ;;
      if negb (check_bounds (i + 1) self) then
        modify (with_iter None) ;;; raise StopIteration
      else gen_path (i + 1)
  end.

(** A [for] loop over the object (or [list(seq)]): [__iter__] once, then
    [__next__] until it raises [StopIteration]; any other exception leaves the
    loop.  [fuel] bounds the number of calls of [__next__]; [None] means that
    the bound was reached. *)
Fixpoint drain (fuel : nat) (acc : list string) (self : DataFileSequence)
  : option (DataFileSequence * result exception (list string)) :=
  match fuel with
  | O => None
  | S fuel' =>
      match __next__ self with
      | (self', Ok p) => drain fuel' (acc ++ [p]) self'
      | (self', Raise StopIteration) => Some (self', Ok acc)
      | (self', Raise e) => Some (self', Raise e)
      end
  end.

Definition iterate (fuel : nat) (self : DataFileSequence)
  : option (DataFileSequence * result exception (list string)) :=
  drain fuel [] (state_after (__iter__ self)).

(** The operations a caller can apply to a sequence. *)
Inductive operation : Type :=
| OpGenPath (index : Z)
| OpGetItem (index : Z)
| OpSetLower (value : Z)
| OpSetUpper (value : Z)
| OpCheckBounds (index : Z)
| OpIter
| OpNext.

(** The object after an operation, whether it returned or raised. *)
Definition apply (o : operation) (self : DataFileSequence)
  : DataFileSequence :=
  match o with
  | OpGenPath i => state_after (gen_path i self)
  | OpGetItem i => state_after (__getitem__ i self)
  | OpSetLower v => state_after (set_lower_bound v self)
  | OpSetUpper v => state_after (set_upper_bound v self)
  | OpCheckBounds _ => self
  | OpIter => state_after (__iter__ self)
  | OpNext => state_after (__next__ self)
  end.

Definition run (ops : list operation) (self : DataFileSequence)
  : DataFileSequence :=
  fold_left (fun s o => apply o s) ops self.

(** The interval invariant. *)
Definition bounds_ordered (self : DataFileSequence) : Prop :=
  lower_bound self <= upper_bound self.

(** The indices [lower, lower + 1, ..., lower + n - 1]. *)
Fixpoint indices_from (lower : Z) (n : nat) : list Z :=
  match n with
  | O => []
  | S n' => lower :: indices_from (lower + 1) n'
  end.

Definition indices (self : DataFileSequence) : list Z :=
  indices_from (lower_bound self)
               (Z.to_nat (upper_bound self - lower_bound self + 1)).

(** Iteration as the specification words it, for every sequence: the loop
    ends and has produced the path of each index of the interval, in
    ascending order. *)
Definition iteration_yields_interval (self : DataFileSequence) : Prop :=
  exists (fuel : nat) (self' : DataFileSequence),
    iterate fuel self =
    Some (self', Ok (map (format (sequence self)) (indices self))).

(** A caller's loop [[seq.gen_path(i) for i in idxs]]: the calls in order,
    up to the first one that raises. *)
Fixpoint gen_paths (idxs : list Z) : method (list string) :=
  match idxs with
  | [] => ret []
  | i :: rest =>
      p <- gen_path i ;;
      ps <- gen_paths rest ;;
      ret (p :: ps)
  end.

(** The indices [upper, upper - 1, ..., upper - n + 1]. *)
Fixpoint indices_down (upper : Z) (n : nat) : list Z :=
  match n with
  | O => []
  | S n' => upper :: indices_down (upper - 1) n'
  end.

(** The operations other than the [lower_bound] setter. *)
Definition keeps_lower_bound (o : operation) : bool :=
  match o with
  | OpSetLower _ => false
  | _ => true
  end.

End Methods.

End FileSequence.

(** * Data records and record containers *)

Module Records.

Open Scope string_scope.
Open Scope list_scope.

(** ** Values *)

(** JSON data as Python sees it after parsing.  [bool] is a subclass of [int]
    whose two values compare and hash as [1] and [0]; they are the [JInt]s
    [1] and [0] here.  Floats are left out. *)
Inductive json : Type :=
| JNull
| JInt (z : Z)
| JStr (s : string)
| JList (items : list json)
| JDict (entries : list (string * json)).

(** What a record class declares: its fully-qualified name and the lists
    returned by the class methods [required()], [optional()] and
    [excluded()]. *)
Record record_class : Type := mkClass {
  class_name : string;
  required : list string;
  optional : list string;
  excluded : list string
}.

(** The Python objects that occur as attribute values and arguments: the
    sentinel [eta.core.config.no_default], class objects, and plain data. *)
Inductive pyval : Type :=
| no_default
| PClass (cls : record_class)
| PData (j : json).

Definition None_ : pyval := PData JNull.

Definition PStr (s : string) : pyval := PData (JStr s).

(** Truth value of an object, as tested by [if x:] and [x or y]. *)
Definition truthy (v : pyval) : bool :=
  match v with
  | no_default => true
  | PClass _ => true
  | PData JNull => false
  | PData (JInt z) => negb (Z.eqb z 0%Z)
  | PData (JStr s) => negb (String.eqb s EmptyString)
  | PData (JList items) => match items with [] => false | _ => true end
  | PData (JDict entries) => match entries with [] => false | _ => true end
  end.

Definition is_None (v : pyval) : bool :=
  match v with PData JNull => true | _ => false end.

Definition is_no_default (v : pyval) : bool :=
  match v with no_default => true | _ => false end.

(** Hashable objects, up to Python equality: the keys of sets and
    dictionaries.  Lists and dictionaries are unhashable. *)
Inductive key : Type :=
| KNoDefault
| KClass (cls : record_class)
| KNull
| KInt (z : Z)
| KStr (s : string).

Definition hash_key (v : pyval) : option key :=
  match v with
  | no_default => Some KNoDefault
  | PClass c => Some (KClass c)
  | PData JNull => Some KNull
  | PData (JInt z) => Some (KInt z)
  | PData (JStr s) => Some (KStr s)
  | PData (JList _) => None
  | PData (JDict _) => None
  end.

Definition key_value (k : key) : pyval :=
  match k with
  | KNoDefault => no_default
  | KClass c => PClass c
  | KNull => PData JNull
  | KInt z => PData (JInt z)
  | KStr s => PData (JStr s)
  end.

Definition record_class_eq_dec (c1 c2 : record_class) : {c1 = c2} + {c1 <> c2}.
Proof.
  decide equality; try apply (list_eq_dec string_dec); apply string_dec.
Defined.

Definition key_eq_dec (k1 k2 : key) : {k1 = k2} + {k1 <> k2}.
Proof.
  decide equality;
    [apply record_class_eq_dec | apply Z.eq_dec | apply string_dec].
Defined.

Definition key_mem (k : key) (ks : list key) : bool :=
  if in_dec key_eq_dec k ks then true else false.

(** ** Exceptions *)

Inductive type_error : Type :=
| Unhashable (v : pyval)           (* unhashable type: 'list' / 'dict' *)
| NotSubscriptable (j : json)      (* d[k] on something that is no dict *)
| NotIterable (j : json)           (* iteration or [in] on None or an int *)
| UnexpectedKeyword (name : string)
| MissingArgument (name : string)
| NotSerializable (v : pyval).

Inductive exception : Type :=
| KeyError (k : pyval)
| AttributeError (name : string)   (* the object has no attribute [name] *)
| TypeError (why : type_error)
| DataRecordsError (msg : string).

Definition res (A : Type) : Type := result exception A.

Definition bind {A B : Type} (m : res A) (k : A -> res B) : res B :=
  match m with
  | Ok a => k a
  | Raise e => Raise e
  end.

Notation "x <- m ;; k" := (bind m (fun x => k))
  (at level 100, m at next level, right associativity).

(** [[f(x) for x in xs]], stopping at the first exception. *)
Fixpoint for_each {A B : Type} (f : A -> res B) (xs : list A) : res (list B) :=
  match xs with
  | [] => Ok []
  | x :: rest =>
      y <- f x ;;
      ys <- for_each f rest ;;
      Ok (y :: ys)
  end.

(** ** Dictionaries with string keys, in insertion order *)

Definition dict (V : Type) : Type := list (string * V).

Fixpoint dict_get {V : Type} (d : dict V) (k : string) : option V :=
  match d with
  | [] => None
  | (k', v) :: rest => if String.eqb k k' then Some v else dict_get rest k
  end.

Definition dict_has {V : Type} (d : dict V) (k : string) : bool :=
  match dict_get d k with Some _ => true | None => false end.

(** [d[k] = v] *)
Fixpoint dict_set {V : Type} (d : dict V) (k : string) (v : V) : dict V :=
  match d with
  | [] => [(k, v)]
  | (k', v') :: rest =>
      if String.eqb k k' then (k', v) :: rest
      else (k', v') :: dict_set rest k v
  end.

(** [del d[k]] *)
Definition dict_del {V : Type} (d : dict V) (k : string) : dict V :=
  filter (fun e => negb (String.eqb k (fst e))) d.

(** [d.update(e)] *)
Definition dict_update {V : Type} (d e : dict V) : dict V :=
  fold_left (fun acc kv => dict_set acc (fst kv) (snd kv)) e d.

Definition str_mem (k : string) (ks : list string) : bool :=
  existsb (String.eqb k) ks.

(** ** Record instances *)

(** An instance of a record class: its class and its instance dictionary.
    Field names are names of instance attributes; the methods of the class
    are not field names. *)
Record instance : Type := mkInstance {
  class_of : record_class;
  __dict__ : dict pyval
}.

Definition hasattr (self : instance) (a : string) : bool :=
  dict_has (__dict__ self) a.

Definition getattr (self : instance) (a : string) : res pyval :=
  match dict_get (__dict__ self) a with
  | Some v => Ok v
  | None => Raise (AttributeError a)
  end.

Definition setattr (self : instance) (a : string) (v : pyval) : instance :=
  mkInstance (class_of self) (dict_set (__dict__ self) a v).

Definition delattr (self : instance) (a : string) : instance :=
  mkInstance (class_of self) (dict_del (__dict__ self) a).

Definition is_private (a : string) : bool :=
  match a with
  | String c _ => Ascii.eqb c "_"%char
  | EmptyString => false
  end.

(** Modelled from the spec: [eta.core.serial.Serializable] is not among the
    sources.  Its [attributes()] lists "all non-private instance fields";
    the docstring of [BaseDataRecord.attributes] says the same: "All private
    attributes (those starting with "_") ... are omitted from this list". *)
Definition Serializable_attributes (self : instance) : list string :=
  filter (fun a => negb (is_private a)) (map fst (__dict__ self)).

(** [BaseDataRecord.attributes(self)] *)
Definition attributes (self : instance) : list string :=
  filter (fun a => negb (str_mem a (excluded (class_of self))))
         (Serializable_attributes self).

(** [BaseDataRecord.clean_optional(self)] *)
Definition clean_optional (self : instance) : instance :=
  fold_left
    (fun self o =>
       if hasattr self o &&
          match getattr self o with
          | Ok v => is_no_default v
          | Raise _ => false
          end
       then delattr self o
       else self)
    (optional (class_of self)) self.

(** [BaseDataRecord.__init__(self)] *)
Definition BaseDataRecord__init__ (self : instance) : instance :=
  clean_optional self.

(** [BaseDataRecord.__getitem__(self, key)] *)
Definition __getitem__ (self : instance) (k : string) : res pyval :=
  getattr self k.

(** *** LabeledVideoRecord *)

Definition LabeledVideoRecord : record_class :=
  mkClass "eta.core.data.LabeledVideoRecord"
          ["video_path"; "label"] ["group"] [].

(** [LabeledVideoRecord.__init__(self, video_path, label, group=no_default)];
    a call that omits [group] passes [no_default]. *)
Definition LabeledVideoRecord__init__ (video_path label group : pyval)
  : instance :=
  let self := mkInstance LabeledVideoRecord [] in
  let self := setattr self "video_path" video_path in
  let self := setattr self "label" label in
  let self := setattr self "group" group in
  BaseDataRecord__init__ self.

(** *** Calling a record class with keyword arguments

    The constructor of a record class follows [LabeledVideoRecord.__init__]:
    one parameter for each required name, one keyword parameter with default
    [no_default] for each optional name, each stored in the attribute of its
    name, and then [BaseDataRecord.__init__].  Binding the arguments raises
    [TypeError] for a keyword that is no parameter and for a parameter
    without default that gets no argument. *)

Definition bind_arguments (cls : record_class) (kwargs : dict pyval)
  : res (dict pyval) :=
  _ <- for_each
         (fun kv =>
            if str_mem (fst kv) (required cls ++ optional cls) then Ok tt
            else Raise (TypeError (UnexpectedKeyword (fst kv))))
         kwargs ;;
  req <- for_each
           (fun k =>
              match dict_get kwargs k with
              | Some v => Ok (k, v)
              | None => Raise (TypeError (MissingArgument k))
              end)
           (required cls) ;;
  Ok (req ++
      map (fun k =>
             match dict_get kwargs k with
             | Some v => (k, v)
             | None => (k, no_default)
             end)
          (optional cls)).

Definition construct (cls : record_class) (kwargs : dict pyval)
  : res instance :=
  params <- bind_arguments cls kwargs ;;
  let self :=
    fold_left (fun self kv => setattr self (fst kv) (snd kv))
              params (mkInstance cls []) in
  Ok (BaseDataRecord__init__ self).

(** *** BaseDataRecord.from_dict *)

(** [d[k]] for a string [k] *)
Definition subscript (d : json) (k : string) : res json :=
  match d with
  | JDict entries =>
      match dict_get entries k with
      | Some v => Ok v
      | None => Raise (KeyError (PStr k))
      end
  | _ => Raise (TypeError (NotSubscriptable d))
  end.

Definition is_substring (k s : string) : bool :=
  match String.index 0 k s with Some _ => true | None => false end.

(** [k in d] for a string [k] *)
Definition contains (d : json) (k : string) : res bool :=
  match d with
  | JDict entries => Ok (dict_has entries k)
  | JList items =>
      Ok (existsb (fun j => match j with
                            | JStr s => String.eqb k s
                            | _ => false
                            end) items)
  | JStr s => Ok (is_substring k s)
  | JNull | JInt _ => Raise (TypeError (NotIterable d))
  end.

(** One turn of a dictionary comprehension: [k: d[k]]. *)
Definition take (d : json) (acc : res (dict pyval)) (k : string)
  : res (dict pyval) :=
  kwargs <- acc ;;
  v <- subscript d k ;;
  Ok (dict_set kwargs k (PData v)).

(** One turn of a filtered comprehension: [k: d[k]] if [k in d]. *)
Definition take_if_in (d : json) (acc : res (dict pyval)) (k : string)
  : res (dict pyval) :=
  kwargs <- acc ;;
  present <- contains d k ;;
  if (present : bool) then
    v <- subscript d k ;;
    Ok (dict_set kwargs k (PData v))
  else Ok kwargs.

(** [{k: d[k] for k in names}] *)
Definition comprehension (d : json) (names : list string)
  : res (dict pyval) :=
  fold_left (take d) names (Ok []).

(** [{k: d[k] for k in names if k in d}] *)
Definition comprehension_if_in (d : json) (names : list string)
  : res (dict pyval) :=
  fold_left (take_if_in d) names (Ok []).

(** [BaseDataRecord.from_dict(cls, d)] *)
Definition from_dict (cls : record_class) (d : json) : res instance :=
  kwargs <- comprehension d (required cls) ;;
  opt <- comprehension_if_in d (optional cls) ;;
  let kwargs := dict_update kwargs opt in
  construct cls kwargs.

(** ** DataRecords *)

(** A [DataRecords] instance: [_ELE_CLS] is whatever the constructor got as
    [record_cls]; [records] is the element list ([_ELE_ATTR = "records"]). *)
Record DataRecords : Type := mkRecords {
  _ELE_CLS : pyval;
  records : list instance
}.

Definition _ELE_ATTR : string := "records".
Definition _ELE_CLS_FIELD : string := "_RECORD_CLS".

(** [DataRecords.__init__] with [record_cls] and the optional [records]
    keyword.  Modelled from the spec: the base constructor
    [eta.core.serial.Container.__init__] is not among the sources; a
    container "holds an ordered sequence of elements", the ones passed in. *)
Definition DataRecords__init__ (record_cls : pyval) (records : list instance)
  : DataRecords :=
  mkRecords record_cls records.

(** The [record_cls] property. *)
Definition record_cls (self : DataRecords) : pyval := _ELE_CLS self.

(** [self.__elements__] *)
Definition __elements__ (self : DataRecords) : list instance := records self.

(** [len(self)] *)
Definition len (self : DataRecords) : nat :=
  List.length (__elements__ self).

(** Modelled from the spec: [eta.core.serial.Container.keep_inds] is not among
    the sources.  "[filter_by_indices(indices: set[int]) -> self]: keep only
    elements at the given positions, preserving relative order; mutates in
    place". *)
Fixpoint keep_from {A : Type} (i : nat) (inds : list nat) (elements : list A)
  : list A :=
  match elements with
  | [] => []
  | e :: rest =>
      if existsb (Nat.eqb i) inds then e :: keep_from (S i) inds rest
      else keep_from (S i) inds rest
  end.

Definition keep_inds (inds : list nat) (self : DataRecords) : DataRecords :=
  mkRecords (_ELE_CLS self) (keep_from 0 inds (__elements__ self)).

(** The field value of a record as a dictionary or set key. *)
Definition field_key (field : string) (r : instance) : res key :=
  v <- getattr r field ;;
  match hash_key v with
  | Some k => Ok k
  | None => Raise (TypeError (Unhashable v))
  end.

(** [keys.add(k)] on a set, kept in order of first insertion.  The order in
    which Python iterates a set is unspecified; nothing below depends on
    it. *)
Definition set_add (keys : list key) (k : key) : list key :=
  if key_mem k keys then keys else keys ++ [k].

(** One turn of the loop of [build_keyset]:
    [keys.add(getattr(r, field))]. *)
Definition keyset_add (field : string) (acc : res (list key)) (r : instance)
  : res (list key) :=
  keys <- acc ;;
  k <- field_key field r ;;
  Ok (set_add keys k).

(** [DataRecords.build_keyset(self, field)] *)
Definition build_keyset (field : string) (self : DataRecords)
  : res (list pyval) :=
  keys <- fold_left (keyset_add field) (__elements__ self) (Ok []) ;;
  Ok (map key_value keys).

(** A lookup dictionary: field values to lists of indices. *)
Definition lookup : Type := list (key * list nat).

(** [lud[k].append(i)] on a [defaultdict(list)] *)
Fixpoint lookup_append (lud : lookup) (k : key) (i : nat) : lookup :=
  match lud with
  | [] => [(k, [i])]
  | (k', idxs) :: rest =>
      if key_eq_dec k k' then (k', idxs ++ [i]) :: rest
      else (k', idxs) :: lookup_append rest k i
  end.

Fixpoint lookup_find (lud : lookup) (k : key) : option (list nat) :=
  match lud with
  | [] => None
  | (k', idxs) :: rest => if key_eq_dec k k' then Some idxs else lookup_find rest k
  end.

(** [lud[v]] on the plain [dict] that [build_lookup] returns *)
Definition lookup_get (lud : lookup) (v : pyval) : res (list nat) :=
  match hash_key v with
  | None => Raise (TypeError (Unhashable v))
  | Some k =>
      match lookup_find lud k with
      | Some idxs => Ok idxs
      | None => Raise (KeyError v)
      end
  end.

Definition lookup_keys (lud : lookup) : list key := map fst lud.

Fixpoint build_lookup_from (field : string) (i : nat)
  (elements : list instance) (lud : lookup) : res lookup :=
  match elements with
  | [] => Ok lud
  | r :: rest =>
      k <- field_key field r ;;
      build_lookup_from field (S i) rest (lookup_append lud k i)
  end.

(** [DataRecords.build_lookup(self, field)] *)
Definition build_lookup (field : string) (self : DataRecords) : res lookup :=
  build_lookup_from field 0 (__elements__ self) [].

(** [DataRecords.slice(self, field)] *)
Definition slice (field : string) (self : DataRecords) : res (list pyval) :=
  for_each (fun r => getattr r field) (__elements__ self).

(** One turn of building [set(values)]. *)
Definition to_set_add (acc : res (list key)) (v : pyval) : res (list key) :=
  keys <- acc ;;
  match hash_key v with
  | Some k => Ok (set_add keys k)
  | None => Raise (TypeError (Unhashable v))
  end.

(** [set(values)] *)
Definition to_set (values : list pyval) : res (list key) :=
  fold_left to_set_add values (Ok []).

(** Truth value of an optional list argument: [None] and [[]] are false. *)
Definition provided (values : option (list pyval)) : bool :=
  match values with
  | Some (_ :: _) => true
  | _ => false
  end.

Definition no_criteria : string :=
  "Either keep_values or remove_values must be provided".

(** One turn of the loop of [cull]: [inds += lud[v]]. *)
Definition gather (lud : lookup) (acc : res (list nat)) (v : pyval)
  : res (list nat) :=
  inds <- acc ;;
  idxs <- lookup_get lud v ;;
  Ok (inds ++ idxs).

Definition values_of (values : option (list pyval)) : list pyval :=
  match values with
  | Some vs => vs
  | None => []
  end.

(** [DataRecords.cull(self, field, keep_values=None, remove_values=None)].
    The container is mutated by [keep_inds] only, after every statement that
    can raise: the result is the container after the call and the returned
    length, or the exception, with the container as it was. *)
Definition cull (field : string) (keep_values remove_values : option (list pyval))
  (self : DataRecords) : res (DataRecords * nat) :=
  lud <- build_lookup field self ;;
  keep_values <-
    (if provided remove_values then
       removed <- to_set (values_of remove_values) ;;
       Ok (Some (map key_value
                     (filter (fun k => negb (key_mem k removed))
                             (lookup_keys lud))))
     else Ok keep_values) ;;
  if negb (provided keep_values) then Raise (DataRecordsError no_criteria)
  else
    inds <- fold_left (gather lud) (values_of keep_values) (Ok []) ;;
    let self := keep_inds inds self in
    Ok (self, len self).

Definition need_record_cls : string :=
  "Need record_cls to parse the DataRecords dictionary".

(** [for r in x]: the items of a list, the characters of a string, the keys
    of a dictionary. *)
Fixpoint characters (s : string) : list json :=
  match s with
  | EmptyString => []
  | String c rest => JStr (String c EmptyString) :: characters rest
  end.

Definition iterate (x : json) : res (list json) :=
  match x with
  | JList items => Ok items
  | JStr s => Ok (characters s)
  | JDict entries => Ok (map (fun e => JStr (fst e)) entries)
  | JNull | JInt _ => Raise (TypeError (NotIterable x))
  end.

(** [rc.from_dict(r)]: only a record class has the attribute. *)
Definition call_from_dict (rc : pyval) (r : json) : res instance :=
  match rc with
  | PClass cls => from_dict cls r
  | _ => Raise (AttributeError "from_dict")
  end.

(** [DataRecords.from_dict(cls, d, record_cls=None)] for a dictionary [d];
    [record_cls=None] is [None_]. *)
Definition DataRecords_from_dict (d : dict json) (record_cls : pyval)
  : res DataRecords :=
  let rc :=
    if truthy record_cls then record_cls
    else match dict_get d _ELE_CLS_FIELD with
         | Some j => PData j
         | None => None_
         end in
  if is_None rc then Raise (DataRecordsError need_record_cls)
  else
    raw <- match dict_get d _ELE_ATTR with
           | Some x => Ok x
           | None => Raise (KeyError (PStr _ELE_ATTR))
           end ;;
    items <- iterate raw ;;
    records <- for_each (call_from_dict rc) items ;;
    Ok (DataRecords__init__ rc records).

(** *** Serialization *)

(** Modelled from the spec: [eta.core.utils.get_class_name] is not among the
    sources; it gives the "fully-qualified name" of a class. *)
Definition get_class_name (cls : pyval) : res string :=
  match cls with
  | PClass c => Ok (class_name c)
  | _ => Raise (AttributeError "__name__")
  end.

(** Modelled from the spec: [Serializable.serialize] is not among the sources.
    A record is written as the map of its serializable fields
    ([attributes()]) to their values; only plain data can be written. *)
Definition serialize_record (r : instance) : res json :=
  entries <- for_each
               (fun a =>
                  v <- getattr r a ;;
                  match v with
                  | PData j => Ok (a, j)
                  | _ => Raise (TypeError (NotSerializable v))
                  end)
               (attributes r) ;;
  Ok (JDict entries).

(** Modelled from the spec: [Container.serialize] (the container's [to_dict])
    is not among the sources.  The map holds the tag of the container class,
    the tag of the element class as a "fully-qualified element class name"
    under the container's tag field [_ELE_CLS_FIELD], where
    [DataRecords.from_dict] reads it, and the serialized elements in order
    under [_ELE_ATTR]. *)
Definition to_dict (self : DataRecords) : res (dict json) :=
  name <- get_class_name (_ELE_CLS self) ;;
  elements <- for_each serialize_record (__elements__ self) ;;
  Ok [("_CLS", JStr "eta.core.data.DataRecords");
      (_ELE_CLS_FIELD, JStr name);
      (_ELE_ATTR, JList elements)].

(** ** Notions used to state the properties *)

(** The argument a constructor parameter receives: the keyword argument of
    its name, or the default [no_default]. *)
Definition argument (kwargs : dict pyval) (k : string) : pyval :=
  match dict_get kwargs k with
  | Some v => v
  | None => no_default
  end.

(** Whether an instance dictionary holds the sentinel under a name. *)
Definition unset (d : dict pyval) (k : string) : bool :=
  match dict_get d k with
  | Some v => is_no_default v
  | None => false
  end.

(** The keys of the records' field values, in the order of the records. *)
Definition record_keys (field : string) (elements : list instance)
  : res (list key) :=
  for_each (field_key field) elements.

(** The lookup dictionary after appending the positions [i], [i + 1], ... of
    a list of keys. *)
Fixpoint tabulate (i : nat) (ks : list key) (lud : lookup) : lookup :=
  match ks with
  | [] => lud
  | k :: rest => tabulate (S i) rest (lookup_append lud k i)
  end.

Definition lookup_indices (lud : lookup) (k : key) : list nat :=
  match lookup_find lud k with
  | Some idxs => idxs
  | None => []
  end.

Definition lookup_has (lud : lookup) (k : key) : bool :=
  match lookup_find lud k with
  | Some _ => true
  | None => false
  end.

Definition hashable (v : pyval) : Prop := hash_key v <> None.

(** The value a dictionary holds under a name, as an argument. *)
Definition value_in (d : dict json) (k : string) : pyval :=
  match dict_get d k with
  | Some j => PData j
  | None => no_default
  end.

(** Keyword arguments whose values are all taken from a dictionary. *)
Definition agrees (d : dict json) (kw : dict pyval) : Prop :=
  forall e, In e kw -> snd e = value_in d (fst e).

(** The first required name that is no key of a dictionary. *)
Definition first_missing (names : list string) (d : dict json)
  : option string :=
  find (fun k => negb (dict_has d k)) names.

(** ** The claims as the specification words them *)

(** The container once a call of [cull] is over: the one it returns, or the
    untouched container when it raises. *)
Definition container_after (self : DataRecords) (r : res (DataRecords * nat))
  : DataRecords :=
  match r with
  | Ok (self', _) => self'
  | Raise _ => self
  end.

(** [cull] with [keep_values=V] succeeds, and the distinct values of the
    field are then those of [V] that the field had before. *)
Definition cull_keeps_intersection (field : string) (V : list pyval)
  (self : DataRecords) : Prop :=
  exists (self' : DataRecords) (n : nat) (before after : list pyval),
    build_keyset field self = Ok before /\
    cull field (Some V) None self = Ok (self', n) /\
    build_keyset field self' = Ok after /\
    forall v : pyval, In v after <-> In v V /\ In v before.

(** [cull] with [remove_values=D] leaves the container as [cull] with
    [keep_values] the distinct values before the call minus [D] does, for
    every list [D]. *)
Definition remove_is_keep_complement (field : string) (D : list pyval)
  (self : DataRecords) : Prop :=
  forall before K : list pyval,
    build_keyset field self = Ok before ->
    (forall v, In v K <-> In v before /\ ~ In v D) ->
    container_after self (cull field None (Some D) self) =
    container_after self (cull field (Some K) None self).

(** ** More of DataRecords *)

(** A dictionary of subsets: field values to lists of records. *)
Definition subsets : Type := list (key * list instance).

(** [sss[k].append(r)] on a [defaultdict(list)] *)
Fixpoint subsets_append (sss : subsets) (k : key) (r : instance) : subsets :=
  match sss with
  | [] => [(k, [r])]
  | (k', rs) :: rest =>
      if key_eq_dec k k' then (k', rs ++ [r]) :: rest
      else (k', rs) :: subsets_append rest k r
  end.

Fixpoint build_subsets_from (field : string) (elements : list instance)
  (sss : subsets) : res subsets :=
  match elements with
  | [] => Ok sss
  | r :: rest =>
      k <- field_key field r ;;
      build_subsets_from field rest (subsets_append sss k r)
  end.

(** [DataRecords.build_subsets(self, field)] *)
Definition build_subsets (field : string) (self : DataRecords) : res subsets :=
  build_subsets_from field (__elements__ self) [].

(** ** Notions used to state further properties *)

(** The positions [i], [i + 1], ... at which a key occurs in a list. *)
Fixpoint occurrences (i : nat) (k : key) (ks : list key) : list nat :=
  match ks with
  | [] => []
  | k' :: rest =>
      if key_eq_dec k' k then i :: occurrences (S i) k rest
      else occurrences (S i) k rest
  end.

(** The elements at the given positions, in the order of the positions. *)
Definition select (elements : list instance) (idxs : list nat)
  : list instance :=
  flat_map (fun i => match nth_error elements i with
                     | Some r => [r]
                     | None => []
                     end) idxs.

(** The dictionary of subsets after appending records with their keys. *)
Fixpoint tabulate_records (elements : list instance) (ks : list key)
  (sss : subsets) : subsets :=
  match elements, ks with
  | r :: elements', k :: ks' =>
      tabulate_records elements' ks' (subsets_append sss k r)
  | _, _ => sss
  end.

(** Whether a key is the key of one of the given values. *)
Definition value_key_in (k : key) (values : list pyval) : bool :=
  existsb (fun v => match hash_key v with
                    | Some k' => if key_eq_dec k k' then true else false
                    | None => false
                    end) values.

(** Whether the field of a record holds one of the given values. *)
Definition field_in (field : string) (values : list pyval) (r : instance)
  : bool :=
  match field_key field r with
  | Ok k => value_key_in k values
  | Raise _ => false
  end.

(** The records that a call of [cull] keeps. *)
Definition kept (field : string) (keep_values remove_values : option (list pyval))
  (r : instance) : bool :=
  if provided remove_values
  then negb (field_in field (values_of remove_values) r)
  else field_in field (values_of keep_values) r.

End Records.

(** * Concrete sequences and records *)

Module Examples.

Import FileSequence.

Open Scope string_scope.

(** A formatter for patterns whose placeholder is [%d] or [%0Nd], enough to
    run the methods on concrete patterns. *)
Definition digit_of (c : ascii) : option nat :=
  let n := nat_of_ascii c in
  if ((48 <=? n) && (n <=? 57))%nat then Some (n - 48)%nat else None.

Fixpoint parse_width (width : nat) (s : string) : option (nat * string) :=
  match s with
  | EmptyString => None
  | String c rest =>
      if Ascii.eqb c "d"%char then Some (width, rest)
      else match digit_of c with
           | Some n => parse_width (10 * width + n) rest
           | None => None
           end
  end.

Fixpoint zeros (n : nat) : string :=
  match n with
  | O => EmptyString
  | S n' => String "0"%char (zeros n')
  end.

Definition decimal (width : nat) (index : Z) : string :=
  let digits := NilZero.string_of_uint (N.to_uint (Z.abs_N index)) in
  let sign := if (index <? 0)%Z then "-" else "" in
  sign ++ zeros (width - String.length sign - String.length digits) ++ digits.

Fixpoint printf (pattern : string) (index : Z) : string :=
  match pattern with
  | EmptyString => EmptyString
  | String c rest =>
      if Ascii.eqb c "%"%char then
        match parse_width 0 rest with
        | Some (width, rest') => decimal width index ++ rest'
        | None => String c rest
        end
      else String c (printf rest index)
  end.

(** A directory that holds [frame-00003.png] to [frame-00010.png]. *)
Definition frames : string := "frame-%05d.png".

Definition on_disk (patt : string) : list Z :=
  if String.eqb patt frames then [5; 3; 4; 10; 6; 7; 8; 9]%Z else [].

Definition frames_immutable : DataFileSequence :=
  mkSeq frames true 3 10 None.

Definition frames_mutable : DataFileSequence :=
  mkSeq frames false 3 10 None.

(** A mutable sequence whose lower bound was moved below zero with the
    setter: [seq.lower_bound = -1]. *)
Definition lowered : DataFileSequence :=
  state_after (set_lower_bound (-1) frames_mutable).

End Examples.

Module RecordExamples.

Import Records.

Open Scope string_scope.

(** Three labeled videos; the first leaves [group] unset, the second sets
    it to [None]. *)

Definition cat_video : instance :=
  LabeledVideoRecord__init__ (PStr "a.mp4") (PStr "cat") no_default.

Definition dog_video : instance :=
  LabeledVideoRecord__init__ (PStr "b.mp4") (PStr "dog") None_.

Definition cat_clip : instance :=
  LabeledVideoRecord__init__ (PStr "c.mp4") (PStr "cat") (PStr "a.mp4").

Definition videos : DataRecords :=
  DataRecords__init__ (PClass LabeledVideoRecord)
                      [cat_video; dog_video; cat_clip].

Definition one_video : DataRecords :=
  DataRecords__init__ (PClass LabeledVideoRecord) [cat_video].

Definition one_video_dict : dict json :=
  [("_CLS", JStr "eta.core.data.DataRecords");
   ("_RECORD_CLS", JStr "eta.core.data.LabeledVideoRecord");
   ("records", JList [JDict [("video_path", JStr "a.mp4");
                             ("label", JStr "cat")]])].

End RecordExamples.

(** * Properties of DataFileSequence *)

Module FileSequenceFacts.

Import FileSequence.

Open Scope Z_scope.

Ltac unfold_methods :=
  unfold __getitem__, gen_path, __next__, __iter__, set_lower_bound,
    set_upper_bound, bind, get, modify, ret, raise, check_bounds,
    lower_bound, upper_bound, state_after, outcome, with_lower, with_upper,
    with_iter, bounds_ordered in *;
  simpl in *.

Ltac compare_indices :=
  repeat match goal with
         | |- context [Z.gtb ?a ?b] => rewrite (Z.gtb_ltb a b)
         | |- context [Z.ltb ?a ?b] => destruct (Z.ltb_spec a b)
         | |- context [Z.eqb ?a ?b] => destruct (Z.eqb_spec a b)
         end;
  simpl; try reflexivity; try lia.

Section Facts.

Variable format : string -> Z -> string.
Variable matching_indices : string -> list Z.

Lemma fold_min_le_max (i : Z) (rest : list Z) :
  fold_right Z.min i rest <= fold_right Z.max i rest.
Proof.
  induction rest as [|j rest IH]; simpl; lia.
Qed.

Lemma init_bounds_ordered (patt : string) (imm : bool)
  (self : DataFileSequence) :
  __init__ matching_indices patt imm = Ok self -> bounds_ordered self.
Proof.
  unfold __init__, parse_bounds_from_pattern.
  destruct (matching_indices patt) as [|i rest]; [discriminate|].
  intros H; injection H as <-.
  unfold bounds_ordered, lower_bound, upper_bound; simpl.
  apply fold_min_le_max.
Qed.

Lemma gen_path_bounds_ordered (index : Z) (self : DataFileSequence) :
  bounds_ordered self ->
  bounds_ordered (state_after (gen_path format index self)).
Proof.
  destruct self as [patt imm l u it]; unfold_methods; intros H.
  destruct imm; simpl.
  - compare_indices.
  - compare_indices; simpl; lia.
Qed.

Lemma next_bounds_ordered (self : DataFileSequence) :
  bounds_ordered self ->
  bounds_ordered (state_after (__next__ format self)).
Proof.
  destruct self as [patt imm l u [i|]]; unfold_methods; intros H; [|exact H].
  destruct imm; simpl; repeat (compare_indices; unfold_methods); lia.
Qed.

Lemma apply_bounds_ordered (o : operation) (self : DataFileSequence) :
  bounds_ordered self -> bounds_ordered (apply format o self).
Proof.
  intros H; destruct o; simpl;
    try (apply gen_path_bounds_ordered; exact H);
    try (apply next_bounds_ordered; exact H);
    try exact H.
  - destruct self as [patt [] l u it]; unfold_methods; lia.
  - destruct self as [patt [] l u it]; unfold_methods; lia.
Qed.

Lemma run_bounds_ordered (ops : list operation) (self : DataFileSequence) :
  bounds_ordered self -> bounds_ordered (run format ops self).
Proof.
  revert self; induction ops as [|o ops IH]; intros self H; simpl.
  - exact H.
  - apply IH, apply_bounds_ordered, H.
Qed.

Lemma apply_immutable (o : operation) (self : DataFileSequence) :
  immutable_bounds self = true ->
  immutable_bounds (apply format o self) = true /\
  lower_bound (apply format o self) = lower_bound self /\
  upper_bound (apply format o self) = upper_bound self.
Proof.
  destruct self as [patt imm l u it]; simpl; intros ->.
  destruct o; simpl; unfold_methods; auto.
  - compare_indices; auto.
  - compare_indices; auto.
  - destruct it as [i|]; simpl; auto.
    repeat (compare_indices; unfold_methods); auto.
Qed.

Lemma run_immutable (ops : list operation) (self : DataFileSequence) :
  immutable_bounds self = true ->
  immutable_bounds (run format ops self) = true /\
  lower_bound (run format ops self) = lower_bound self /\
  upper_bound (run format ops self) = upper_bound self.
Proof.
  revert self; induction ops as [|o ops IH]; intros self H; simpl; auto.
  destruct (apply_immutable o self H) as (Hi & Hl & Hu).
  destruct (IH _ Hi) as (Hi' & Hl' & Hu').
  repeat split; congruence.
Qed.

(** One call of [__next__] while the cursor is inside the interval. *)
Lemma next_inside (self : DataFileSequence) (i : Z) :
  _iter_index self = Some i ->
  lower_bound self <= i + 1 <= upper_bound self ->
  immutable_bounds self = true \/ 0 <= lower_bound self ->
  __next__ format self =
  (with_iter (Some (i + 1)) self, Ok (format (sequence self) (i + 1))).
Proof.
  destruct self as [patt imm l u it]; unfold_methods; intros -> Hin Hok.
  simpl; compare_indices.
  unfold_methods.
  destruct imm; simpl; compare_indices.
Qed.

(** The call of [__next__] that ends the loop. *)
Lemma next_stops (self : DataFileSequence) (i : Z) :
  _iter_index self = Some i ->
  upper_bound self < i + 1 ->
  __next__ format self = (with_iter None self, Raise StopIteration).
Proof.
  destruct self as [patt imm l u it]; unfold_methods; intros -> Hout.
  simpl; compare_indices.
Qed.

Lemma drain_interval (n : nat) :
  forall (i : Z) (acc : list string) (self : DataFileSequence) (fuel : nat),
    _iter_index self = Some i ->
    lower_bound self - 1 <= i ->
    Z.of_nat n = upper_bound self - i ->
    immutable_bounds self = true \/ 0 <= lower_bound self ->
    (n < fuel)%nat ->
    drain format fuel acc self =
    Some (with_iter None self,
          Ok (acc ++ map (format (sequence self)) (indices_from (i + 1) n))).
Proof.
  induction n as [|n IH]; intros i acc self fuel Hi Hlow Hn Hok Hfuel;
    (destruct fuel as [|fuel]; [lia|]); simpl.
  - rewrite (next_stops self Hi) by lia.
    rewrite app_nil_r; reflexivity.
  - rewrite (next_inside self Hi) by (auto; lia).
    rewrite (IH (i + 1) (acc ++ [format (sequence self) (i + 1)])
                (with_iter (Some (i + 1)) self) fuel);
      try (destruct self; simpl in *; auto; lia).
    rewrite <- app_assoc; destruct self; reflexivity.
Qed.

Lemma indices_from_length (n : nat) (lower : Z) :
  List.length (indices_from lower n) = n.
Proof.
  revert lower; induction n as [|n IH]; intros lower; simpl; auto.
Qed.

Lemma indices_from_nth (n : nat) :
  forall (lower : Z) (k : nat),
    (k < n)%nat ->
    nth_error (indices_from lower n) k = Some (lower + Z.of_nat k).
Proof.
  induction n as [|n IH]; intros lower k Hk; [lia|].
  destruct k as [|k]; simpl.
  - f_equal; lia.
  - rewrite IH by lia. f_equal; lia.
Qed.

(** ** The claims about DataFileSequence *)

(** C4: on a sequence with mutable bounds [l <= u], [gen_path(index)] raises
    for a negative index; for a non-negative index it lowers [lower_bound] to
    [index] when [index = l - 1], raises [upper_bound] to [index] when
    [index = u + 1], changes nothing when [l <= index <= u], and raises the
    non-adjacent-extension error for every other index; each successful call
    returns the pattern instantiated with [index].  The bounds of the object
    after the call are stated in every case; a call that raises leaves both
    as they were. *)
Theorem gen_path_mutable (self : DataFileSequence) (index : Z) :
  immutable_bounds self = false ->
  bounds_ordered self ->
  let l := lower_bound self in
  let u := upper_bound self in
  let path := format (sequence self) index in
  let r := gen_path format index self in
  let self' := state_after r in
  (index < 0 ->
   r = (self, Raise (DataFileSequenceError NegativeIndex)) /\
   lower_bound self' = l /\ upper_bound self' = u) /\
  (0 <= index -> index = l - 1 ->
   r = (with_lower index self, Ok path) /\
   outcome r = Ok path /\
   lower_bound self' = index /\ upper_bound self' = u) /\
  (0 <= index -> index = u + 1 ->
   r = (with_upper index self, Ok path) /\
   outcome r = Ok path /\
   lower_bound self' = l /\ upper_bound self' = index) /\
  (0 <= index -> l <= index <= u ->
   r = (self, Ok path) /\
   outcome r = Ok path /\
   lower_bound self' = l /\ upper_bound self' = u) /\
  (0 <= index -> index < l - 1 \/ u + 1 < index ->
   r = (self, Raise (DataFileSequenceError (NonAdjacentIndex index l u))) /\
   lower_bound self' = l /\ upper_bound self' = u) /\
  sequence self' = sequence self /\
  immutable_bounds self' = false /\
  _iter_index self' = _iter_index self.
Proof.
  destruct self as [patt imm l u it]; unfold_methods; intros -> Hlu.
  repeat split; intros; simpl; compare_indices.
Qed.

(** C5: on a sequence with immutable bounds [l, u], [gen_path(index)] raises
    the out-of-bounds error exactly when [index < l] or [index > u], returns
    the pattern instantiated with [index] otherwise, and leaves the object,
    so both bounds, as it was in either case. *)
Theorem gen_path_immutable (self : DataFileSequence) (index : Z) :
  immutable_bounds self = true ->
  let l := lower_bound self in
  let u := upper_bound self in
  let r := gen_path format index self in
  (is_ok (outcome r) = false <-> index < l \/ index > u) /\
  (index < l \/ index > u ->
   outcome r = Raise (DataFileSequenceError (IndexOutOfBounds index l u))) /\
  (l <= index <= u -> outcome r = Ok (format (sequence self) index)) /\
  state_after r = self /\
  lower_bound (state_after r) = l /\
  upper_bound (state_after r) = u.
Proof.
  destruct self as [patt imm l u it]; unfold_methods; intros ->.
  simpl; compare_indices; simpl;
    (repeat split; intros; try reflexivity; try lia; try discriminate).
Qed.

(** C6: [lower_bound <= upper_bound] holds after construction and after every
    sequence of operations on the object; [gen_path] keeps it; on a mutable
    sequence the [lower_bound] setter stores [min(value, upper_bound)] and the
    [upper_bound] setter stores [max(value, lower_bound)]; on an immutable
    sequence both setters raise and leave the object as it was, and its
    bounds stay those of the construction. *)
Theorem bounds_stay_ordered (patt : string) (imm : bool)
  (self : DataFileSequence) (ops : list operation) (index value : Z) :
  __init__ matching_indices patt imm = Ok self ->
  let s := run format ops self in
  bounds_ordered self /\
  bounds_ordered s /\
  bounds_ordered (state_after (gen_path format index s)) /\
  bounds_ordered (state_after (set_lower_bound value s)) /\
  bounds_ordered (state_after (set_upper_bound value s)) /\
  (immutable_bounds s = false ->
   set_lower_bound value s =
   (with_lower (Z.min value (upper_bound s)) s, Ok tt) /\
   set_upper_bound value s =
   (with_upper (Z.max value (lower_bound s)) s, Ok tt) /\
   lower_bound (state_after (set_lower_bound value s)) <= upper_bound s /\
   lower_bound s <= upper_bound (state_after (set_upper_bound value s))) /\
  (immutable_bounds s = true ->
   set_lower_bound value s =
   (s, Raise (DataFileSequenceError ImmutableBounds)) /\
   set_upper_bound value s =
   (s, Raise (DataFileSequenceError ImmutableBounds)) /\
   lower_bound s = lower_bound self /\
   upper_bound s = upper_bound self).
Proof.
  intros Hinit s.
  assert (H0 : bounds_ordered self) by (eapply init_bounds_ordered; eauto).
  assert (Hs : bounds_ordered s) by (apply run_bounds_ordered; exact H0).
  split; [exact H0|]. split; [exact Hs|].
  split; [apply gen_path_bounds_ordered; exact Hs|].
  split; [exact (apply_bounds_ordered (OpSetLower value) Hs)|].
  split; [exact (apply_bounds_ordered (OpSetUpper value) Hs)|].
  split.
  - clearbody s. destruct s as [p i l u it]; unfold_methods; intros ->.
    simpl. repeat split; lia.
  - intros Himm.
    assert (Hself : immutable_bounds self = true).
    { destruct (immutable_bounds self) eqn:E; [reflexivity|].
      exfalso. clear - E Himm. subst s.
      revert self E Himm; induction ops as [|o ops IH]; intros self E Himm;
        simpl in *; [congruence|].
      apply (IH (apply format o self)); [|exact Himm].
      destruct self as [p i l u it]; simpl in E; subst i.
      destruct o; simpl; unfold_methods; auto.
      - compare_indices.
      - compare_indices.
      - destruct it as [j|]; simpl; auto.
        repeat (compare_indices; unfold_methods); auto. }
    destruct (run_immutable ops self Hself) as (_ & Hl & Hu).
    fold s in Hl, Hu.
    clearbody s. destruct s as [p i l u it]. simpl in Himm; subst i.
    unfold_methods. repeat split; assumption.
Qed.

(** C7, amended: for a sequence with bounds [l <= u] that is immutable or has
    [l >= 0], the loop ends and yields exactly [u - l + 1] paths, the pattern
    instantiated with [l], [l + 1], ..., [u] in this order; it leaves the
    bounds as they were, and a second loop yields the same paths again. *)
Theorem iterate_yields_interval (self : DataFileSequence) (fuel : nat) :
  bounds_ordered self ->
  immutable_bounds self = true \/ 0 <= lower_bound self ->
  (Z.to_nat (upper_bound self - lower_bound self + 1) < fuel)%nat ->
  let paths := map (format (sequence self)) (indices self) in
  let finished := with_iter None self in
  iterate format fuel self = Some (finished, Ok paths) /\
  iterate format fuel finished = Some (finished, Ok paths) /\
  Z.of_nat (List.length paths) = upper_bound self - lower_bound self + 1 /\
  (forall k : nat,
      (k < List.length paths)%nat ->
      nth_error paths k =
      Some (format (sequence self) (lower_bound self + Z.of_nat k))).
Proof.
  intros Hlu Hok Hfuel paths finished.
  assert (Hiter : forall s : DataFileSequence,
             with_iter None s = finished -> sequence s = sequence self ->
             iterate format fuel s = Some (finished, Ok paths)).
  { intros s Hs Hseq. unfold iterate.
    rewrite (@drain_interval
               (Z.to_nat (upper_bound self - lower_bound self + 1))
               (lower_bound self - 1) []
               (state_after (__iter__ s)) fuel).
    - subst paths finished; unfold indices.
      destruct s, self; unfold_methods; simpl in *.
      injection Hs as -> -> -> ->.
      replace (_lower_bound1 - 1 + 1) with _lower_bound1 by lia.
      reflexivity.
    - destruct s, self; unfold_methods; simpl in *.
      injection Hs as -> -> -> ->; reflexivity.
    - destruct s, self; unfold_methods; simpl in *.
      injection Hs as -> -> -> ->; lia.
    - destruct s, self; unfold_methods; simpl in *.
      injection Hs as -> -> -> ->; lia.
    - destruct s, self; unfold_methods; simpl in *.
      injection Hs as -> -> -> ->; exact Hok.
    - destruct s, self; unfold_methods; simpl in *.
      injection Hs as -> -> -> ->; exact Hfuel. }
  split; [apply Hiter; reflexivity|].
  split; [apply Hiter; destruct self; reflexivity|].
  subst paths; unfold indices.
  rewrite length_map, indices_from_length.
  split.
  - unfold bounds_ordered in Hlu; lia.
  - intros k Hk. rewrite nth_error_map, indices_from_nth by exact Hk.
    reflexivity.
Qed.

End Facts.

(** ** The claims on the frames [frame-00003.png] to [frame-00010.png] *)

Import Examples.

Example init_frames :
  __init__ on_disk frames true = Ok frames_immutable /\
  __init__ on_disk frames false = Ok frames_mutable /\
  __init__ on_disk "missing-%05d.png" true =
  Raise (DataFileSequenceError (NoMatchingFiles "missing-%05d.png")).
Proof. repeat split. Qed.

Example immutable_frames :
  gen_path printf 3 frames_immutable =
  (frames_immutable, Ok "frame-00003.png"%string) /\
  gen_path printf 2 frames_immutable =
  (frames_immutable, Raise (DataFileSequenceError (IndexOutOfBounds 2 3 10))) /\
  gen_path printf 11 frames_immutable =
  (frames_immutable, Raise (DataFileSequenceError (IndexOutOfBounds 11 3 10))).
Proof. repeat split. Qed.

Example mutable_frames :
  let extended := state_after (gen_path printf 11 frames_mutable) in
  outcome (gen_path printf 11 frames_mutable) = Ok "frame-00011.png"%string /\
  upper_bound extended = 11 /\
  gen_path printf 13 extended =
  (extended, Raise (DataFileSequenceError (NonAdjacentIndex 13 3 11))).
Proof. repeat split. Qed.

Lemma gen_path_mutable_witness :
  outcome (gen_path printf 11 frames_mutable) = Ok "frame-00011.png"%string /\
  lower_bound (state_after (gen_path printf 11 frames_mutable)) = 3 /\
  upper_bound (state_after (gen_path printf 11 frames_mutable)) = 11.
Proof.
  assert (Hordered : bounds_ordered frames_mutable)
    by (unfold bounds_ordered; simpl; lia).
  destruct (@gen_path_mutable printf frames_mutable 11 eq_refl Hordered)
    as (_ & _ & Hupper & _).
  destruct Hupper as (_ & Hpath & Hlower & Hupper); [lia | reflexivity |].
  split; [exact Hpath | split; [exact Hlower | exact Hupper]].
Defined.

Lemma gen_path_immutable_witness :
  outcome (gen_path printf 2 frames_immutable) =
  Raise (DataFileSequenceError (IndexOutOfBounds 2 3 10)) /\
  state_after (gen_path printf 2 frames_immutable) = frames_immutable.
Proof.
  destruct (@gen_path_immutable printf frames_immutable 2 eq_refl)
    as (_ & Hraise & _ & Hstate & _).
  split; [apply Hraise; left; simpl; lia | exact Hstate].
Defined.

Lemma bounds_stay_ordered_witness :
  bounds_ordered
    (run printf [OpGenPath 11; OpSetLower (-1); OpIter; OpNext; OpSetUpper 0]
         frames_mutable).
Proof.
  destruct (@bounds_stay_ordered printf on_disk frames false frames_mutable
              [OpGenPath 11; OpSetLower (-1); OpIter; OpNext; OpSetUpper 0]
              0 0 eq_refl)
    as (_ & Hrun & _).
  exact Hrun.
Defined.

Lemma iterate_yields_interval_witness :
  iterate printf 9 frames_immutable =
  Some (frames_immutable,
        Ok ["frame-00003.png"; "frame-00004.png"; "frame-00005.png";
            "frame-00006.png"; "frame-00007.png"; "frame-00008.png";
            "frame-00009.png"; "frame-00010.png"]%string).
Proof.
  assert (Hordered : bounds_ordered frames_immutable)
    by (unfold bounds_ordered; simpl; lia).
  assert (Hfuel : (Z.to_nat (upper_bound frames_immutable -
                             lower_bound frames_immutable + 1) < 9)%nat)
    by (simpl; lia).
  destruct (@iterate_yields_interval printf frames_immutable 9 Hordered
              (or_introl eq_refl) Hfuel) as (Hfirst & _).
  exact Hfirst.
Defined.

(** C7 as worded fails: on the mutable sequence built from the frames, after
    [seq.lower_bound = -1], the first [__next__] of a loop calls
    [gen_path(-1)], which raises, so the loop yields no path at all. *)
Lemma iteration_raises_below_zero :
  __init__ on_disk frames false = Ok frames_mutable /\
  lowered = run printf [OpSetLower (-1)] frames_mutable /\
  lower_bound lowered = -1 /\
  upper_bound lowered = 10 /\
  iterate printf 1 lowered =
  Some (with_iter (Some (-1)) lowered,
        Raise (DataFileSequenceError NegativeIndex)) /\
  ~ iteration_yields_interval printf lowered.
Proof.
  repeat split.
  intros (fuel & self' & H).
  destruct fuel as [|fuel]; [discriminate|].
  cbn in H. discriminate.
Qed.

End FileSequenceFacts.

(** * Properties of records and record containers *)

Module RecordsFacts.

Import Records.

Open Scope string_scope.
Open Scope list_scope.

(** ** Dictionaries *)

Lemma str_mem_In (k : string) (ks : list string) :
  str_mem k ks = true <-> In k ks.
Proof.
  unfold str_mem. rewrite existsb_exists. split.
  - intros (x & Hin & Heq). apply String.eqb_eq in Heq. subst; exact Hin.
  - intros Hin. exists k. split; [exact Hin | apply String.eqb_refl].
Qed.

Lemma str_mem_app (k : string) (ks ks' : list string) :
  str_mem k (ks ++ ks') = str_mem k ks || str_mem k ks'.
Proof. unfold str_mem. apply existsb_app. Qed.

Section Dictionaries.

Variable V : Type.

Lemma dict_get_set (d : dict V) (k k' : string) (v : V) :
  dict_get (dict_set d k v) k' =
  if String.eqb k' k then Some v else dict_get d k'.
Proof.
  induction d as [|[k0 v0] d IH]; simpl.
  - reflexivity.
  - destruct (String.eqb_spec k k0) as [->|Hk]; simpl.
    + destruct (String.eqb_spec k' k0); reflexivity.
    + rewrite IH.
      destruct (String.eqb_spec k' k0) as [->|];
        destruct (String.eqb_spec k0 k); congruence.
Qed.

Lemma dict_get_del (d : dict V) (k k' : string) :
  dict_get (dict_del d k) k' =
  if String.eqb k' k then None else dict_get d k'.
Proof.
  unfold dict_del. induction d as [|[k0 v0] d IH]; simpl.
  - destruct (String.eqb k' k); reflexivity.
  - destruct (String.eqb_spec k k0) as [->|Hk]; simpl.
    + rewrite IH. destruct (String.eqb_spec k' k0); reflexivity.
    + rewrite IH.
      destruct (String.eqb_spec k' k0) as [->|];
        destruct (String.eqb_spec k0 k); congruence.
Qed.

Lemma dict_set_In (d : dict V) (k : string) (v : V) (e : string * V) :
  In e (dict_set d k v) -> e = (k, v) \/ In e d.
Proof.
  induction d as [|[k0 v0] d IH]; simpl.
  - intros [<-|[]]; auto.
  - destruct (String.eqb_spec k k0) as [->|Hk]; simpl.
    + intros [<-|H]; auto.
    + intros [<-|H]; auto. destruct (IH H); auto.
Qed.

Lemma dict_has_keys (d : dict V) (k : string) :
  dict_has d k = true <-> In k (map fst d).
Proof.
  unfold dict_has. induction d as [|[k0 v0] d IH]; simpl.
  - split; [discriminate | intros []].
  - destruct (String.eqb_spec k k0) as [->|Hk].
    + split; auto.
    + rewrite IH. split; [auto | intros [H|H]; congruence].
Qed.

Lemma dict_get_In (d : dict V) (k : string) (v : V) :
  dict_get d k = Some v -> In (k, v) d.
Proof.
  induction d as [|[k0 v0] d IH]; simpl; [discriminate|].
  destruct (String.eqb_spec k k0) as [->|Hk].
  - intros H; injection H as ->; auto.
  - auto.
Qed.

(** Storing entries that all agree with one assignment [value]. *)
Lemma fold_dict_set_get (value : string -> V) (es : dict V) :
  (forall e, In e es -> snd e = value (fst e)) ->
  forall (acc : dict V) (k : string),
    dict_get (fold_left (fun a kv => dict_set a (fst kv) (snd kv)) es acc) k =
    if str_mem k (map fst es) then Some (value k) else dict_get acc k.
Proof.
  induction es as [|[k0 v0] es IH]; intros Hes acc k; simpl.
  - reflexivity.
  - rewrite IH by (intros e He; apply Hes; right; exact He).
    rewrite dict_get_set.
    assert (Hv : v0 = value k0) by (apply (Hes (k0, v0)); left; reflexivity).
    destruct (str_mem k (map fst es)); [rewrite orb_true_r; reflexivity|].
    rewrite orb_false_r.
    destruct (String.eqb_spec k k0) as [->|]; [rewrite Hv|]; reflexivity.
Qed.

End Dictionaries.

(** ** Loops that may raise *)

Lemma for_each_Forall2 (A B : Type) (f : A -> res B) (xs : list A)
  (ys : list B) :
  for_each f xs = Ok ys -> Forall2 (fun x y => f x = Ok y) xs ys.
Proof.
  revert ys; induction xs as [|x xs IH]; intros ys; simpl.
  - intros H; injection H as <-; constructor.
  - destruct (f x) as [y|e] eqn:Hx; simpl; [|discriminate].
    destruct (for_each f xs) as [ys'|e] eqn:Hxs; simpl; [|discriminate].
    intros H; injection H as <-. constructor; auto.
Qed.

Lemma for_each_map (A B : Type) (f : A -> res B) (g : A -> B) (xs : list A) :
  (forall x, In x xs -> f x = Ok (g x)) -> for_each f xs = Ok (map g xs).
Proof.
  induction xs as [|x xs IH]; intros H; simpl; [reflexivity|].
  rewrite (H x) by (left; reflexivity); simpl.
  rewrite IH by (intros y Hy; apply H; right; exact Hy).
  reflexivity.
Qed.

(** ** Construction of records *)

Lemma clean_optional_fold (opts : list string) :
  forall (self : instance) (k : string),
    let self' :=
      fold_left
        (fun self o =>
           if hasattr self o &&
              match getattr self o with
              | Ok v => is_no_default v
              | Raise _ => false
              end
           then delattr self o
           else self)
        opts self in
    class_of self' = class_of self /\
    dict_get (__dict__ self') k =
    if str_mem k opts && unset (__dict__ self) k then None
    else dict_get (__dict__ self) k.
Proof.
  induction opts as [|o opts IH]; intros self k; simpl.
  - split; reflexivity.
  - match goal with
    | |- context [fold_left _ opts ?s] => destruct (IH s k) as [Hc Hg]
    end.
    rewrite Hc, Hg. clear Hc Hg IH.
    unfold hasattr, getattr, dict_has, unset.
    destruct (dict_get (__dict__ self) o) as [vo|] eqn:Ho; simpl.
    + destruct (is_no_default vo) eqn:Hnd; simpl.
      * split; [reflexivity|]. rewrite dict_get_del.
        destruct (String.eqb_spec k o) as [->|Hk]; simpl.
        -- rewrite Ho, Hnd. destruct (str_mem o opts); reflexivity.
        -- reflexivity.
      * split; [reflexivity|].
        destruct (String.eqb_spec k o) as [->|Hk]; simpl; [|reflexivity].
        rewrite Ho, Hnd. rewrite andb_false_r. reflexivity.
    + split; [reflexivity|].
      destruct (String.eqb_spec k o) as [->|Hk]; simpl; [|reflexivity].
      rewrite Ho. rewrite andb_false_r. reflexivity.
Qed.

Lemma clean_optional_get (self : instance) (k : string) :
  class_of (clean_optional self) = class_of self /\
  dict_get (__dict__ (clean_optional self)) k =
  if str_mem k (optional (class_of self)) && unset (__dict__ self) k then None
  else dict_get (__dict__ self) k.
Proof. apply clean_optional_fold. Qed.

Lemma fold_setattr (params : dict pyval) :
  forall self : instance,
    fold_left (fun self kv => setattr self (fst kv) (snd kv)) params self =
    mkInstance (class_of self)
               (fold_left (fun a kv => dict_set a (fst kv) (snd kv)) params
                          (__dict__ self)).
Proof.
  induction params as [|[k v] params IH]; intros [cls d]; simpl.
  - reflexivity.
  - rewrite IH. reflexivity.
Qed.

(** What [bind_arguments] returns when it returns. *)
Lemma bind_arguments_params (cls : record_class) (kwargs params : dict pyval) :
  bind_arguments cls kwargs = Ok params ->
  map fst params = required cls ++ optional cls /\
  (forall e, In e params -> snd e = argument kwargs (fst e)).
Proof.
  unfold bind_arguments.
  destruct (for_each _ kwargs) as [units|e]; simpl; [|discriminate].
  destruct (for_each _ (required cls)) as [req|e] eqn:Hreq; simpl;
    [|discriminate].
  intros H; injection H as <-.
  apply for_each_Forall2 in Hreq.
  assert (Hr : map fst req = required cls /\
               forall e, In e req -> snd e = argument kwargs (fst e)).
  { induction Hreq as [|k e ks req' Hk _ IH]; simpl.
    - split; [reflexivity | intros e []].
    - destruct IH as [IH1 IH2]. unfold argument at 1.
      destruct (dict_get kwargs k) as [v|] eqn:Hget; [|discriminate].
      injection Hk as <-. simpl. split; [f_equal; exact IH1|].
      intros e [<-|He]; [|auto]. simpl. unfold argument. rewrite Hget.
      reflexivity. }
  destruct Hr as [Hr1 Hr2]. split.
  - rewrite map_app, Hr1, map_map. f_equal.
    transitivity (map (fun k : string => k) (optional cls));
      [|apply map_id].
    apply map_ext_in. intros k _. destruct (dict_get kwargs k); reflexivity.
  - intros e He. apply in_app_or in He. destruct He as [He|He]; [auto|].
    apply in_map_iff in He. destruct He as (k & <- & _).
    destruct (dict_get kwargs k) eqn:Hget; simpl; unfold argument;
      rewrite Hget; reflexivity.
Qed.

(** The attributes of a constructed record: a parameter's argument, unless
    the parameter is optional and the argument is the sentinel. *)
Lemma construct_attributes (cls : record_class) (kwargs : dict pyval)
  (r : instance) :
  construct cls kwargs = Ok r ->
  class_of r = cls /\
  forall k : string,
    dict_get (__dict__ r) k =
    if str_mem k (required cls ++ optional cls) then
      if str_mem k (optional cls) && is_no_default (argument kwargs k)
      then None
      else Some (argument kwargs k)
    else None.
Proof.
  unfold construct.
  destruct (bind_arguments cls kwargs) as [params|e] eqn:Hbind; simpl;
    [|discriminate].
  intros H; injection H as <-.
  destruct (bind_arguments_params _ _ Hbind) as [Hkeys Hvals].
  unfold BaseDataRecord__init__. rewrite fold_setattr. simpl.
  split.
  - rewrite (proj1 (clean_optional_get _ "")). reflexivity.
  - intros k. rewrite (proj2 (clean_optional_get _ k)). simpl.
    unfold unset.
    rewrite (fold_dict_set_get (argument kwargs) params Hvals).
    rewrite Hkeys. simpl.
    destruct (str_mem k (required cls ++ optional cls)) eqn:Hmem.
    + reflexivity.
    + rewrite andb_false_r. reflexivity.
Qed.

(** When [bind_arguments] returns: no keyword is foreign and every required
    parameter has its argument. *)
Lemma construct_succeeds (cls : record_class) (kwargs : dict pyval) :
  (forall e, In e kwargs ->
             str_mem (fst e) (required cls ++ optional cls) = true) ->
  (forall k, In k (required cls) -> dict_has kwargs k = true) ->
  exists r : instance, construct cls kwargs = Ok r.
Proof.
  intros Hknown Hreq. unfold construct, bind_arguments.
  rewrite (for_each_map _ (fun _ => tt)).
  2:{ intros e He. rewrite (Hknown e He). reflexivity. }
  simpl.
  rewrite (for_each_map _ (fun k => (k, argument kwargs k))).
  2:{ intros k Hk. specialize (Hreq k Hk). unfold dict_has in Hreq.
      unfold argument. destruct (dict_get kwargs k); [reflexivity|discriminate]. }
  simpl. eexists; reflexivity.
Qed.

(** ** Records from dictionaries *)

Lemma dict_has_set (V : Type) (d : dict V) (k k' : string) (v : V) :
  dict_has (dict_set d k v) k' = String.eqb k' k || dict_has d k'.
Proof.
  unfold dict_has. rewrite dict_get_set.
  destruct (String.eqb k' k); reflexivity.
Qed.

Lemma dict_get_agrees (V : Type) (value : string -> V) (d : dict V)
  (k : string) :
  (forall e, In e d -> snd e = value (fst e)) ->
  dict_get d k = if dict_has d k then Some (value k) else None.
Proof.
  intros H. unfold dict_has.
  destruct (dict_get d k) as [v|] eqn:Hget; [|reflexivity].
  apply dict_get_In in Hget. apply H in Hget. simpl in Hget.
  rewrite Hget. reflexivity.
Qed.

Lemma fold_dict_set_In (V : Type) (es : dict V) :
  forall (acc : dict V) (e : string * V),
    In e (fold_left (fun a kv => dict_set a (fst kv) (snd kv)) es acc) ->
    In e acc \/ In e es.
Proof.
  induction es as [|[k v] es IH]; intros acc e; simpl; [auto|].
  intros H. apply IH in H. destruct H as [H|H]; [|auto].
  apply dict_set_In in H. destruct H as [->|H]; auto.
Qed.

Lemma first_missing_Some (names : list string) (d : dict json) (k : string) :
  first_missing names d = Some k -> In k names /\ dict_has d k = false.
Proof.
  unfold first_missing. intros H. apply find_some in H.
  destruct H as [Hin Hk]. split; [exact Hin|].
  destruct (dict_has d k); [discriminate | reflexivity].
Qed.

Lemma first_missing_None (names : list string) (d : dict json) :
  first_missing names d = None <->
  forall k, In k names -> dict_has d k = true.
Proof.
  unfold first_missing. split.
  - intros H k Hk. pose proof (find_none _ _ H k Hk) as Hn. simpl in Hn.
    destruct (dict_has d k); [reflexivity | discriminate].
  - intros H. induction names as [|k names IH]; simpl; [reflexivity|].
    rewrite (H k) by (left; reflexivity). simpl.
    apply IH. intros k' Hk'. apply H. right; exact Hk'.
Qed.

Section FromDict.

Variable d : dict json.

Lemma agrees_set (kw : dict pyval) (k : string) :
  agrees d kw -> agrees d (dict_set kw k (value_in d k)).
Proof.
  intros H e He. apply dict_set_In in He. destruct He as [->|He]; auto.
Qed.

Lemma take_dict (acc : dict pyval) (k : string) :
  take (JDict d) (Ok acc) k =
  match dict_get d k with
  | Some _ => Ok (dict_set acc k (value_in d k))
  | None => Raise (KeyError (PStr k))
  end.
Proof.
  unfold take, value_in; simpl. destruct (dict_get d k); reflexivity.
Qed.

Lemma take_if_in_dict (acc : dict pyval) (k : string) :
  take_if_in (JDict d) (Ok acc) k =
  Ok (if dict_has d k then dict_set acc k (value_in d k) else acc).
Proof.
  unfold take_if_in, value_in; simpl. unfold dict_has.
  destruct (dict_get d k); reflexivity.
Qed.

Lemma fold_take_raise (names : list string) (e : exception) :
  fold_left (take (JDict d)) names (Raise e) = Raise e.
Proof. induction names as [|k names IH]; simpl; [reflexivity | exact IH]. Qed.

(** The dictionary comprehension over the required names. *)
Lemma comprehension_required (names : list string) :
  forall acc : dict pyval,
    agrees d acc ->
    match first_missing names d with
    | Some k =>
        fold_left (take (JDict d)) names (Ok acc) = Raise (KeyError (PStr k))
    | None =>
        exists kw : dict pyval,
          fold_left (take (JDict d)) names (Ok acc) = Ok kw /\
          agrees d kw /\
          forall k, dict_has kw k = dict_has acc k || str_mem k names
    end.
Proof.
  unfold first_missing.
  induction names as [|k names IH]; intros acc Hacc; cbn [fold_left find].
  - exists acc. repeat split; [exact Hacc|].
    intros k. rewrite orb_false_r. reflexivity.
  - rewrite take_dict. unfold dict_has at 1.
    destruct (dict_get d k) as [j|] eqn:Hget; cbn [negb].
    + specialize (IH _ (agrees_set k Hacc)).
      destruct (find _ names) as [k'|]; [exact IH|].
      destruct IH as (kw & Hfold & Hkw & Hdom).
      exists kw. repeat split; [exact Hfold | exact Hkw |].
      intros k'. rewrite Hdom, dict_has_set. unfold str_mem; simpl.
      destruct (String.eqb k' k), (dict_has acc k'); reflexivity.
    + apply fold_take_raise.
Qed.

(** The dictionary comprehension over the optional names that are keys. *)
Lemma comprehension_optional (names : list string) :
  forall acc : dict pyval,
    agrees d acc ->
    exists kw : dict pyval,
      fold_left (take_if_in (JDict d)) names (Ok acc) = Ok kw /\
      agrees d kw /\
      forall k,
        dict_has kw k = dict_has acc k || (str_mem k names && dict_has d k).
Proof.
  induction names as [|k names IH]; intros acc Hacc; cbn [fold_left].
  - exists acc. repeat split; [exact Hacc|].
    intros k. rewrite orb_false_r. reflexivity.
  - rewrite take_if_in_dict.
    destruct (dict_has d k) eqn:Hk.
    + destruct (IH _ (agrees_set k Hacc)) as (kw & Hfold & Hkw & Hdom).
      exists kw. repeat split; [exact Hfold | exact Hkw |].
      intros k'. rewrite Hdom, dict_has_set. unfold str_mem; simpl.
      destruct (String.eqb_spec k' k) as [->|]; simpl; [|reflexivity].
      rewrite Hk. destruct (dict_has acc k); reflexivity.
    + destruct (IH _ Hacc) as (kw & Hfold & Hkw & Hdom).
      exists kw. repeat split; [exact Hfold | exact Hkw |].
      intros k'. rewrite Hdom. unfold str_mem; simpl.
      destruct (String.eqb_spec k' k) as [->|]; simpl; [|reflexivity].
      rewrite Hk, andb_false_r. reflexivity.
Qed.

(** The keyword arguments that [from_dict] passes to the constructor. *)
Lemma from_dict_kwargs (cls : record_class) :
  first_missing (required cls) d = None ->
  exists kwargs : dict pyval,
    from_dict cls (JDict d) = construct cls kwargs /\
    agrees d kwargs /\
    forall k,
      dict_has kwargs k =
      str_mem k (required cls) || (str_mem k (optional cls) && dict_has d k).
Proof.
  intros Hreq. unfold from_dict, comprehension, comprehension_if_in.
  assert (Hnil : agrees d []) by (intros e []).
  pose proof (comprehension_required (required cls) Hnil) as H1.
  rewrite Hreq in H1. destruct H1 as (kw & Hfold1 & Hkw & Hdom1).
  destruct (comprehension_optional (optional cls) Hnil)
    as (opt & Hfold2 & Hopt & Hdom2).
  change (fold_left (take (JDict d)) (required cls) (Ok []))
    with (fold_left (take (JDict d)) (required cls)
                    (Ok ([] : dict pyval))).
  change (fold_left (take_if_in (JDict d)) (optional cls) (Ok []))
    with (fold_left (take_if_in (JDict d)) (optional cls)
                    (Ok ([] : dict pyval))).
  rewrite Hfold1, Hfold2.
  simpl. exists (dict_update kw opt). split; [reflexivity|].
  assert (Hall : agrees d (dict_update kw opt)).
  { intros e He. apply fold_dict_set_In in He. destruct He; auto. }
  split; [exact Hall|].
  intros k. unfold dict_has at 1. unfold dict_update.
  rewrite (fold_dict_set_get (value_in d) opt Hopt).
  assert (Hmem : str_mem k (map fst opt) = dict_has opt k).
  { destruct (dict_has opt k) eqn:E.
    - apply str_mem_In, dict_has_keys, E.
    - destruct (str_mem k (map fst opt)) eqn:E'; [|reflexivity].
      apply str_mem_In, dict_has_keys in E'. congruence. }
  rewrite Hmem, Hdom2. simpl.
  destruct (str_mem k (optional cls) && dict_has d k);
    [rewrite orb_true_r; reflexivity|].
  rewrite orb_false_r.
  fold (dict_has kw k). apply Hdom1.
Qed.

End FromDict.

(** The attributes of a record built by [from_dict] from a dictionary that
    has every required name. *)
Lemma from_dict_attributes (cls : record_class) (d : dict json) :
  first_missing (required cls) d = None ->
  exists r : instance,
    from_dict cls (JDict d) = Ok r /\
    class_of r = cls /\
    forall k : string,
      dict_get (__dict__ r) k =
      if str_mem k (required cls) || (str_mem k (optional cls) && dict_has d k)
      then Some (value_in d k)
      else None.
Proof.
  intros Hreq.
  destruct (@from_dict_kwargs d cls Hreq) as (kwargs & Hfrom & Hagree & Hdom).
  assert (Hpresent : forall k, In k (required cls) -> dict_has d k = true)
    by (apply first_missing_None; exact Hreq).
  destruct (@construct_succeeds cls kwargs) as [r Hr].
  { intros e He.
    assert (Hk : dict_has kwargs (fst e) = true)
      by (apply dict_has_keys, in_map, He).
    rewrite Hdom in Hk. rewrite str_mem_app.
    destruct (str_mem (fst e) (required cls)); [reflexivity|].
    simpl in *. apply andb_true_iff in Hk. apply Hk. }
  { intros k Hk. rewrite Hdom.
    apply str_mem_In in Hk. rewrite Hk. reflexivity. }
  exists r. rewrite Hfrom. split; [exact Hr|].
  destruct (@construct_attributes cls kwargs r Hr) as [Hcls Hget].
  split; [exact Hcls|].
  intros k. rewrite Hget. clear Hget.
  unfold argument. rewrite (@dict_get_agrees _ (value_in d) kwargs k Hagree).
  rewrite Hdom, str_mem_app.
  destruct (str_mem k (required cls)) eqn:Hr1; simpl.
  - assert (Hd : dict_has d k = true)
      by (apply Hpresent, str_mem_In, Hr1).
    unfold value_in. unfold dict_has in Hd.
    destruct (dict_get d k); [|discriminate]. simpl.
    rewrite andb_false_r. reflexivity.
  - destruct (str_mem k (optional cls)) eqn:Ho; simpl; [|reflexivity].
    unfold value_in, dict_has.
    destruct (dict_get d k); reflexivity.
Qed.

Lemma attributes_In (r : instance) (a : string) :
  In a (attributes r) <->
  hasattr r a = true /\ is_private a = false /\
  str_mem a (excluded (class_of r)) = false.
Proof.
  unfold attributes, Serializable_attributes, hasattr.
  rewrite !filter_In, dict_has_keys, !negb_true_iff. tauto.
Qed.

(** The generic constructor agrees with [LabeledVideoRecord.__init__]. *)
Lemma construct_LabeledVideoRecord (video_path label group : pyval) :
  construct LabeledVideoRecord
            [("video_path", video_path); ("label", label)] =
  Ok (LabeledVideoRecord__init__ video_path label no_default) /\
  construct LabeledVideoRecord
            [("video_path", video_path); ("label", label); ("group", group)] =
  Ok (LabeledVideoRecord__init__ video_path label group) /\
  construct LabeledVideoRecord
            [("group", group); ("label", label); ("video_path", video_path)] =
  Ok (LabeledVideoRecord__init__ video_path label group).
Proof. repeat split. Qed.

Example LabeledVideoRecord_attributes (video_path label : pyval) :
  attributes (LabeledVideoRecord__init__ video_path label no_default) =
  ["video_path"; "label"] /\
  attributes (LabeledVideoRecord__init__ video_path label None_) =
  ["video_path"; "label"; "group"] /\
  getattr (LabeledVideoRecord__init__ video_path label no_default) "group" =
  Raise (AttributeError "group") /\
  getattr (LabeledVideoRecord__init__ video_path label None_) "group" =
  Ok None_.
Proof. repeat split. Qed.

(** ** The claims about records *)

(** C8: for every record class and every dictionary, [from_dict] raises
    [KeyError] naming a required name that is no key of the dictionary (the
    first one) when there is one, and builds no record; when every required
    name is a key it returns a record of the class on which each required
    name and each optional name that is a key holds the dictionary's value,
    an optional name that is no key is absent, and a key that is neither
    required nor optional is absent too. *)
Theorem from_dict_required_optional (cls : record_class) (d : dict json) :
  ((exists k, In k (required cls) /\ dict_has d k = false) ->
   exists k,
     In k (required cls) /\ dict_has d k = false /\
     first_missing (required cls) d = Some k /\
     from_dict cls (JDict d) = Raise (KeyError (PStr k))) /\
  ((forall k, In k (required cls) -> dict_has d k = true) ->
   exists r : instance,
     from_dict cls (JDict d) = Ok r /\
     class_of r = cls /\
     (forall k v,
         In k (required cls ++ optional cls) ->
         dict_get d k = Some v -> getattr r k = Ok (PData v)) /\
     (forall k,
         In k (optional cls) -> dict_has d k = false -> hasattr r k = false) /\
     (forall k,
         ~ In k (required cls ++ optional cls) ->
         hasattr r k = false /\ getattr r k = Raise (AttributeError k))).
Proof.
  split.
  - intros (k0 & Hk0 & Hmiss).
    destruct (first_missing (required cls) d) as [k|] eqn:Hfirst.
    + exists k. destruct (@first_missing_Some _ d k Hfirst) as [Hin Hk].
      repeat split; try assumption.
      unfold from_dict, comprehension.
      assert (Hnil : forall e : string * pyval,
                 In e [] -> snd e = value_in d (fst e)) by (intros e []).
      pose proof (@comprehension_required d (required cls) [] Hnil) as H.
      rewrite Hfirst in H.
      change (fold_left (take (JDict d)) (required cls) (Ok []))
        with (fold_left (take (JDict d)) (required cls)
                        (Ok ([] : dict pyval))).
      rewrite H. reflexivity.
    + rewrite first_missing_None in Hfirst.
      rewrite (Hfirst k0 Hk0) in Hmiss. discriminate.
  - intros Hall.
    assert (Hnone := proj2 (first_missing_None (required cls) d) Hall).
    destruct (@from_dict_attributes cls d Hnone) as (r & Hr & Hcls & Hget).
    exists r. split; [exact Hr|]. split; [exact Hcls|].
    unfold getattr, hasattr.
    repeat split.
    + intros k v Hk Hv. rewrite Hget.
      apply str_mem_In in Hk. rewrite str_mem_app in Hk.
      unfold dict_has, value_in. rewrite Hv.
      destruct (str_mem k (required cls)); simpl in *.
      * reflexivity.
      * rewrite Hk. reflexivity.
    + intros k Hk Hd. unfold dict_has at 1.
      rewrite Hget, Hd, andb_false_r, orb_false_r.
      destruct (str_mem k (required cls)) eqn:Hr1; [|reflexivity].
      apply str_mem_In, Hall in Hr1. congruence.
    + unfold dict_has at 1. rewrite Hget.
      destruct (str_mem k (required cls)) eqn:Hr1.
      { exfalso. apply H, in_or_app. left. apply str_mem_In, Hr1. }
      destruct (str_mem k (optional cls)) eqn:Ho; [|reflexivity].
      exfalso. apply H, in_or_app. right. apply str_mem_In, Ho.
    + rewrite Hget.
      destruct (str_mem k (required cls)) eqn:Hr1.
      { exfalso. apply H, in_or_app. left. apply str_mem_In, Hr1. }
      destruct (str_mem k (optional cls)) eqn:Ho; [|reflexivity].
      exfalso. apply H, in_or_app. right. apply str_mem_In, Ho.
Qed.

(** C9: on every constructed record, an optional field whose parameter got no
    argument, so still holds [no_default], is deleted: it is no attribute of
    the instance and is not listed by [attributes()].  An optional field set
    to [None] stays, with value [None], and is listed by [attributes()]
    whenever its name is serializable (neither private nor excluded). *)
Theorem unset_optional_pruned (cls : record_class) (kwargs : dict pyval)
  (r : instance) (o : string) :
  construct cls kwargs = Ok r ->
  In o (optional cls) ->
  (argument kwargs o = no_default ->
   hasattr r o = false /\
   getattr r o = Raise (AttributeError o) /\
   ~ In o (attributes r)) /\
  (argument kwargs o = None_ ->
   hasattr r o = true /\
   getattr r o = Ok None_ /\
   (is_private o = false -> str_mem o (excluded cls) = false ->
    In o (attributes r))).
Proof.
  intros Hr Ho.
  destruct (@construct_attributes cls kwargs r Hr) as [Hcls Hget].
  specialize (Hget o).
  assert (Hopt : str_mem o (optional cls) = true) by (apply str_mem_In, Ho).
  rewrite str_mem_app, Hopt, orb_true_r in Hget. simpl in Hget.
  split; intros Harg; rewrite Harg in Hget; simpl in Hget.
  - assert (Hhas : hasattr r o = false)
      by (unfold hasattr, dict_has; rewrite Hget; reflexivity).
    repeat split.
    + exact Hhas.
    + unfold getattr. rewrite Hget. reflexivity.
    + rewrite attributes_In. intros (H & _). congruence.
  - assert (Hhas : hasattr r o = true)
      by (unfold hasattr, dict_has; rewrite Hget; reflexivity).
    repeat split.
    + exact Hhas.
    + unfold getattr. rewrite Hget. reflexivity.
    + intros Hpriv Hexcl. apply attributes_In. rewrite Hcls. auto.
Qed.

(** ** Loading what was serialized *)

Lemma for_each_length (A B : Type) (f : A -> res B) (xs : list A)
  (ys : list B) :
  for_each f xs = Ok ys -> List.length ys = List.length xs.
Proof.
  intros H. apply for_each_Forall2 in H.
  induction H; simpl; congruence.
Qed.

(** The map written by [to_dict]: the element-class tag is a string. *)
Lemma to_dict_shape (C : DataRecords) (d : dict json) :
  to_dict C = Ok d ->
  exists (cls : record_class) (elements : list json),
    _ELE_CLS C = PClass cls /\
    List.length elements = List.length (records C) /\
    d = [("_CLS", JStr "eta.core.data.DataRecords");
         (_ELE_CLS_FIELD, JStr (class_name cls));
         (_ELE_ATTR, JList elements)].
Proof.
  unfold to_dict, get_class_name.
  destruct (_ELE_CLS C) as [|cls|j]; simpl; try discriminate.
  destruct (for_each serialize_record (__elements__ C)) as [elements|e] eqn:He;
    simpl; [|discriminate].
  intros H; injection H as <-.
  exists cls, elements. repeat split.
  apply (for_each_length _ _ He).
Qed.

(** Without [record_cls], whatever the dictionary holds: if [from_dict]
    returns, the container is empty and its record class is the piece of data
    found under [_RECORD_CLS], never a class. *)
Lemma from_dict_without_record_cls (d : dict json) (C' : DataRecords) :
  DataRecords_from_dict d None_ = Ok C' ->
  records C' = [] /\
  exists j : json,
    dict_get d _ELE_CLS_FIELD = Some j /\ record_cls C' = PData j.
Proof.
  unfold DataRecords_from_dict. cbn [truthy None_].
  destruct (dict_get d _ELE_CLS_FIELD) as [j|]; [|discriminate].
  destruct (is_None (PData j)); [discriminate|].
  destruct (dict_get d _ELE_ATTR) as [raw|]; [|discriminate].
  cbn [bind].
  destruct (iterate raw) as [items|e]; [|discriminate].
  cbn [bind].
  destruct items as [|x items]; simpl; [|discriminate].
  intros H; injection H as <-. split; [reflexivity|].
  exists j. split; reflexivity.
Qed.

(** C1 (the code does not do what the claim says): [DataRecords.from_dict]
    without [record_cls] takes the tag stored under [_RECORD_CLS] as the
    record class itself.  In the map written by [to_dict] the tag is the class
    name, a string, so loading a container that has records raises
    [AttributeError] at the first [rc.from_dict(r)], and loading an empty one
    returns a container whose record class is that string; the container is
    never recovered. *)
Theorem from_dict_of_to_dict_fails (C : DataRecords) (d : dict json) :
  to_dict C = Ok d ->
  (records C <> [] ->
   DataRecords_from_dict d None_ = Raise (AttributeError "from_dict")) /\
  (forall C' : DataRecords,
      DataRecords_from_dict d None_ = Ok C' ->
      records C = [] /\ records C' = [] /\
      exists name : string,
        get_class_name (record_cls C) = Ok name /\
        record_cls C' = PStr name) /\
  DataRecords_from_dict d None_ <> Ok C.
Proof.
  intros Hd.
  destruct (to_dict_shape C Hd) as (cls & elements & Hcls & Hlen & ->).
  assert (Hload :
            DataRecords_from_dict
              [("_CLS", JStr "eta.core.data.DataRecords");
               (_ELE_CLS_FIELD, JStr (class_name cls));
               (_ELE_ATTR, JList elements)] None_ =
            match elements with
            | [] => Ok (mkRecords (PStr (class_name cls)) [])
            | _ :: _ => Raise (AttributeError "from_dict")
            end).
  { unfold DataRecords_from_dict, _ELE_CLS_FIELD, _ELE_ATTR. simpl.
    destruct elements; reflexivity. }
  rewrite Hload. clear Hload Hd.
  destruct C as [rc rs]; simpl in *. subst rc.
  split; [|split].
  - intros Hne. destruct elements as [|x elements]; [|reflexivity].
    destruct rs; [congruence | discriminate].
  - intros C' HC'. destruct elements as [|x elements]; [|discriminate].
    injection HC' as <-. destruct rs; [|discriminate].
    repeat split. exists (class_name cls). split; reflexivity.
  - destruct elements; [|discriminate].
    intros H; injection H as H _. discriminate.
Qed.

(** With [record_cls] passed explicitly the same map loads. *)
Example from_dict_with_record_cls :
  to_dict RecordExamples.one_video = Ok RecordExamples.one_video_dict /\
  DataRecords_from_dict RecordExamples.one_video_dict
                        (PClass LabeledVideoRecord) =
  Ok RecordExamples.one_video.
Proof. split; reflexivity. Qed.

(** ** The claims about [cull] decided by its first lines *)

(** C10: when both [keep_values] and [remove_values] are non-empty, [cull]
    discards [keep_values]: the outcome (container, returned length or
    exception) is that of the call with [remove_values] alone, and that both
    were given raises nothing by itself. *)
Theorem remove_values_take_precedence (field : string) (K D : list pyval)
  (self : DataRecords) :
  K <> [] ->
  D <> [] ->
  cull field (Some K) (Some D) self = cull field None (Some D) self.
Proof.
  intros _ HD. unfold cull.
  destruct D as [|v D]; [congruence|]. reflexivity.
Qed.

(** ** Keys, sets and lookup dictionaries *)

Lemma hash_key_value (k : key) : hash_key (key_value k) = Some k.
Proof. destruct k; reflexivity. Qed.

Lemma hash_key_inv (v : pyval) (k : key) :
  hash_key v = Some k -> v = key_value k.
Proof.
  destruct v as [|cls|[]]; simpl; intros H; try discriminate;
    injection H as <-; reflexivity.
Qed.

Lemma key_mem_In (k : key) (ks : list key) : key_mem k ks = true <-> In k ks.
Proof.
  unfold key_mem. destruct (in_dec key_eq_dec k ks); split; auto.
  discriminate.
Qed.

Lemma key_mem_false (k : key) (ks : list key) :
  key_mem k ks = false <-> ~ In k ks.
Proof.
  unfold key_mem. destruct (in_dec key_eq_dec k ks); split; auto.
  - discriminate.
  - intros H; contradiction.
Qed.

Lemma set_add_In (ks : list key) (k k' : key) :
  In k' (set_add ks k) <-> In k' ks \/ k' = k.
Proof.
  unfold set_add. destruct (key_mem k ks) eqn:E.
  - apply key_mem_In in E. split; [auto | intros [H| ->]; auto].
  - rewrite in_app_iff. simpl. split; intros [H|H]; auto.
    + destruct H as [<-|[]]; auto.
Qed.

Lemma fold_set_add_In (ks : list key) :
  forall (acc : list key) (k : key),
    In k (fold_left set_add ks acc) <-> In k acc \/ In k ks.
Proof.
  induction ks as [|k0 ks IH]; intros acc k; simpl.
  - tauto.
  - rewrite IH, set_add_In. intuition congruence.
Qed.

Lemma keyset_fold (field : string) (es : list instance) :
  forall acc : res (list key),
    fold_left (keyset_add field) es acc =
    (keys <- acc ;;
     ks <- record_keys field es ;;
     Ok (fold_left set_add ks keys)).
Proof.
  unfold record_keys.
  induction es as [|r es IH]; intros acc; simpl.
  - destruct acc; reflexivity.
  - rewrite IH. unfold keyset_add.
    destruct acc as [acc|e]; simpl; [|reflexivity].
    destruct (field_key field r) as [k|e]; simpl; [|reflexivity].
    destruct (for_each (field_key field) es); reflexivity.
Qed.

(** The distinct values are the values of the records' keys. *)
Lemma build_keyset_keys (field : string) (self : DataRecords)
  (before : list pyval) :
  build_keyset field self = Ok before ->
  exists ks : list key,
    record_keys field (records self) = Ok ks /\
    forall v, In v before <-> exists k, v = key_value k /\ In k ks.
Proof.
  unfold build_keyset, __elements__. rewrite keyset_fold. simpl.
  destruct (record_keys field (records self)) as [ks|e]; simpl;
    [|discriminate].
  intros H; injection H as <-. exists ks. split; [reflexivity|].
  intros v. rewrite in_map_iff. split.
  - intros (k & <- & Hk). exists k. split; [reflexivity|].
    apply fold_set_add_In in Hk. destruct Hk as [[]|Hk]; exact Hk.
  - intros (k & -> & Hk). exists k. split; [reflexivity|].
    apply fold_set_add_In. right; exact Hk.
Qed.

Lemma keyset_of_keys (field : string) (self : DataRecords) (ks : list key) :
  record_keys field (records self) = Ok ks ->
  exists after : list pyval,
    build_keyset field self = Ok after /\
    forall v, In v after <-> exists k, v = key_value k /\ In k ks.
Proof.
  intros Hks.
  destruct (build_keyset field self) as [after|e] eqn:Hb.
  - exists after. split; [reflexivity|].
    destruct (build_keyset_keys _ _ Hb) as (ks' & Hks' & Hin).
    rewrite Hks in Hks'. injection Hks' as <-. exact Hin.
  - exfalso. revert Hb. unfold build_keyset, __elements__.
    rewrite keyset_fold. simpl. rewrite Hks. discriminate.
Qed.

Lemma lookup_find_append (lud : lookup) (k k' : key) (i : nat) :
  lookup_find (lookup_append lud k i) k' =
  if key_eq_dec k' k then Some (lookup_indices lud k ++ [i])
  else lookup_find lud k'.
Proof.
  unfold lookup_indices.
  induction lud as [|[k0 l0] lud IH]; simpl.
  - destruct (key_eq_dec k' k); reflexivity.
  - destruct (key_eq_dec k k0) as [->|Hk]; simpl.
    + destruct (key_eq_dec k' k0); reflexivity.
    + rewrite IH.
      destruct (key_eq_dec k' k0), (key_eq_dec k' k);
        try reflexivity; congruence.
Qed.

Lemma build_lookup_tabulate (field : string) (es : list instance) :
  forall (i : nat) (lud : lookup),
    build_lookup_from field i es lud =
    (ks <- record_keys field es ;; Ok (tabulate i ks lud)).
Proof.
  unfold record_keys.
  induction es as [|r es IH]; intros i lud; simpl; [reflexivity|].
  destruct (field_key field r) as [k|e]; simpl; [|reflexivity].
  rewrite IH. destruct (for_each (field_key field) es); reflexivity.
Qed.

Lemma tabulate_has (ks : list key) :
  forall (i : nat) (lud : lookup) (k : key),
    lookup_has (tabulate i ks lud) k = lookup_has lud k || key_mem k ks.
Proof.
  induction ks as [|k0 ks IH]; intros i lud k; simpl.
  - rewrite orb_false_r. reflexivity.
  - rewrite IH. unfold lookup_has at 1. rewrite lookup_find_append.
    unfold key_mem at 2. simpl.
    destruct (key_eq_dec k k0) as [->|Hk].
    + destruct (key_eq_dec k0 k0); [|congruence].
      rewrite orb_true_r. destruct (key_mem k0 ks); reflexivity.
    + destruct (key_eq_dec k0 k); [congruence|].
      fold (lookup_has lud k). unfold key_mem.
      destruct (in_dec key_eq_dec k ks); reflexivity.
Qed.

Lemma tabulate_indices (ks : list key) :
  forall (i : nat) (lud : lookup) (k : key) (j : nat),
    In j (lookup_indices (tabulate i ks lud) k) <->
    In j (lookup_indices lud k) \/
    exists n, j = i + n /\ nth_error ks n = Some k.
Proof.
  induction ks as [|k0 ks IH]; intros i lud k j; simpl.
  - split; [auto|]. intros [H|(n & _ & Hn)]; [exact H|].
    destruct n; discriminate.
  - rewrite IH. unfold lookup_indices at 1. rewrite lookup_find_append.
    destruct (key_eq_dec k k0) as [->|Hk].
    + rewrite in_app_iff. simpl. split.
      * intros [[H|[<-|[]]]|(n & -> & Hn)].
        -- left; exact H.
        -- right. exists 0. split; [lia | reflexivity].
        -- right. exists (S n). split; [lia | exact Hn].
      * intros [H|(n & -> & Hn)]; [left; left; exact H|].
        destruct n as [|n]; simpl in Hn.
        -- left. right. left. lia.
        -- right. exists n. split; [lia | exact Hn].
    + fold (lookup_indices lud k). split.
      * intros [H|(n & -> & Hn)]; [left; exact H|].
        right. exists (S n). split; [lia | exact Hn].
      * intros [H|(n & -> & Hn)]; [left; exact H|].
        destruct n as [|n]; simpl in Hn; [congruence|].
        right. exists n. split; [lia | exact Hn].
Qed.

Lemma lookup_keys_has (lud : lookup) (k : key) :
  In k (lookup_keys lud) <-> lookup_has lud k = true.
Proof.
  unfold lookup_keys, lookup_has.
  induction lud as [|[k0 l0] lud IH]; simpl.
  - split; [intros [] | discriminate].
  - destruct (key_eq_dec k k0) as [->|Hk].
    + split; auto.
    + rewrite <- IH. split; [intros [H|H]; congruence | auto].
Qed.

(** What [build_lookup] returns: each key of a record is mapped to the
    positions of the records with this key. *)
Lemma build_lookup_keys (field : string) (self : DataRecords)
  (ks : list key) :
  record_keys field (records self) = Ok ks ->
  build_lookup field self = Ok (tabulate 0 ks []) /\
  (forall k, lookup_has (tabulate 0 ks []) k = key_mem k ks) /\
  (forall k j,
      In j (lookup_indices (tabulate 0 ks []) k) <->
      nth_error ks j = Some k).
Proof.
  intros Hks. unfold build_lookup, __elements__.
  rewrite build_lookup_tabulate, Hks. simpl.
  split; [reflexivity|]. split.
  - intros k. rewrite tabulate_has. reflexivity.
  - intros k j. rewrite tabulate_indices. simpl. split.
    + intros [[]|(n & -> & Hn)]. exact Hn.
    + intros H. right. exists j. split; [reflexivity | exact H].
Qed.

(** ** Keeping the elements at given positions *)

Lemma index_mem_In (i : nat) (inds : list nat) :
  existsb (Nat.eqb i) inds = true <-> In i inds.
Proof.
  rewrite existsb_exists. split.
  - intros (j & Hj & Heq). apply Nat.eqb_eq in Heq. subst; exact Hj.
  - intros H. exists i. split; [exact H | apply Nat.eqb_refl].
Qed.

Lemma index_mem_ext (i : nat) (inds inds' : list nat) :
  (forall j, In j inds <-> In j inds') ->
  existsb (Nat.eqb i) inds = existsb (Nat.eqb i) inds'.
Proof.
  intros H.
  destruct (existsb (Nat.eqb i) inds) eqn:E;
    destruct (existsb (Nat.eqb i) inds') eqn:E'; try reflexivity.
  - apply index_mem_In, H, index_mem_In in E. congruence.
  - apply index_mem_In, H, index_mem_In in E'. congruence.
Qed.

Section KeepFrom.

Variable A : Type.

Lemma keep_from_ext (es : list A) :
  forall (i : nat) (inds inds' : list nat),
    (forall j, In j inds <-> In j inds') ->
    keep_from i inds es = keep_from i inds' es.
Proof.
  induction es as [|e es IH]; intros i inds inds' H; simpl; [reflexivity|].
  rewrite (@index_mem_ext i inds inds' H), (IH (S i) inds inds' H).
  reflexivity.
Qed.

Lemma keep_from_all (es : list A) :
  forall (i : nat) (inds : list nat),
    (forall n, n < List.length es -> In (i + n) inds) ->
    keep_from i inds es = es.
Proof.
  induction es as [|e es IH]; intros i inds H; simpl; [reflexivity|].
  assert (Hi : existsb (Nat.eqb i) inds = true).
  { apply index_mem_In. replace i with (i + 0) by lia.
    apply H. simpl; lia. }
  rewrite Hi. f_equal. apply IH.
  intros n Hn. replace (S i + n) with (i + S n) by lia.
  apply H. simpl; lia.
Qed.

Lemma keep_from_In (es : list A) :
  forall (i : nat) (inds : list nat) (x : A),
    In x (keep_from i inds es) <->
    exists n, In (i + n) inds /\ nth_error es n = Some x.
Proof.
  induction es as [|e es IH]; intros i inds x; simpl.
  - split; [intros [] | intros (n & _ & Hn); destruct n; discriminate].
  - destruct (existsb (Nat.eqb i) inds) eqn:Hi.
    + simpl. rewrite IH. split.
      * intros [<-|(n & Hin & Hn)].
        -- exists 0. split; [|reflexivity].
           replace (i + 0) with i by lia. apply index_mem_In, Hi.
        -- exists (S n). split; [|exact Hn].
           replace (i + S n) with (S i + n) by lia. exact Hin.
      * intros (n & Hin & Hn). destruct n as [|n]; simpl in Hn.
        -- left. congruence.
        -- right. exists n. split; [|exact Hn].
           replace (S i + n) with (i + S n) by lia. exact Hin.
    + rewrite IH. split.
      * intros (n & Hin & Hn). exists (S n). split; [|exact Hn].
        replace (i + S n) with (S i + n) by lia. exact Hin.
      * intros (n & Hin & Hn). destruct n as [|n]; simpl in Hn.
        -- exfalso. replace (i + 0) with i in Hin by lia.
           apply index_mem_In in Hin. congruence.
        -- exists n. split; [|exact Hn].
           replace (S i + n) with (i + S n) by lia. exact Hin.
Qed.

End KeepFrom.

Lemma keep_from_for_each (A B : Type) (f : A -> res B) (es : list A) :
  forall (ys : list B) (i : nat) (inds : list nat),
    for_each f es = Ok ys ->
    for_each f (keep_from i inds es) = Ok (keep_from i inds ys).
Proof.
  induction es as [|e es IH]; intros ys i inds; simpl.
  - intros H; injection H as <-. reflexivity.
  - destruct (f e) as [y|err] eqn:He; simpl; [|discriminate].
    destruct (for_each f es) as [ys'|err] eqn:Hes; simpl; [|discriminate].
    intros H; injection H as <-. simpl.
    destruct (existsb (Nat.eqb i) inds); simpl.
    + rewrite He. simpl. rewrite (IH ys' (S i) inds eq_refl). reflexivity.
    + apply IH. reflexivity.
Qed.

(** ** The loops of [cull] *)

(** The positions stored under a value's key. *)
Lemma gather_fold (lud : lookup) (vs : list pyval) :
  (forall v, In v vs ->
             exists k, hash_key v = Some k /\ lookup_has lud k = true) ->
  forall acc : list nat,
  exists inds : list nat,
    fold_left (gather lud) vs (Ok acc) = Ok inds /\
    forall j,
      In j inds <->
      In j acc \/
      exists v k,
        In v vs /\ hash_key v = Some k /\ In j (lookup_indices lud k).
Proof.
  induction vs as [|v vs IH]; intros Hvs acc; simpl.
  - exists acc. split; [reflexivity|]. intros j. split; [auto|].
    intros [H|(v & k & [] & _)]. exact H.
  - destruct (Hvs v (or_introl eq_refl)) as (k & Hk & Hhas).
    unfold lookup_get. rewrite Hk.
    unfold lookup_has in Hhas.
    destruct (lookup_find lud k) as [idxs|] eqn:Hfind; [|discriminate].
    simpl.
    destruct (IH (fun v' Hv' => Hvs v' (or_intror Hv')) (acc ++ idxs))
      as (inds & Hfold & Hin).
    exists inds. split; [exact Hfold|].
    intros j. rewrite Hin, in_app_iff. split.
    + intros [[H|H]|(v' & k' & Hv' & Hk' & Hj)].
      * left; exact H.
      * right. exists v, k. repeat split; auto.
        unfold lookup_indices. rewrite Hfind. exact H.
      * right. exists v', k'. repeat split; auto.
    + intros [H|(v' & k' & [<-|Hv'] & Hk' & Hj)].
      * left; left; exact H.
      * left; right. rewrite Hk in Hk'. injection Hk' as <-.
        unfold lookup_indices in Hj. rewrite Hfind in Hj. exact Hj.
      * right. exists v', k'. repeat split; auto.
Qed.

Lemma to_set_fold (values : list pyval) :
  Forall hashable values ->
  forall acc : list key,
  exists removed : list key,
    fold_left to_set_add values (Ok acc) = Ok removed /\
    forall k,
      In k removed <->
      In k acc \/ exists v, In v values /\ hash_key v = Some k.
Proof.
  induction 1 as [|v vs Hv _ IH]; intros acc; simpl.
  - exists acc. split; [reflexivity|]. intros k. split; [auto|].
    intros [H|(v & [] & _)]. exact H.
  - unfold hashable in Hv.
    destruct (hash_key v) as [kv|] eqn:Hkv; [|congruence].
    destruct (IH (set_add acc kv)) as (removed & Hfold & Hin).
    exists removed. split; [exact Hfold|].
    intros k. rewrite Hin, set_add_In. split.
    + intros [[H| ->]|(v' & Hv' & Hk')].
      * left; exact H.
      * right. exists v. split; [left; reflexivity | exact Hkv].
      * right. exists v'. split; [right; exact Hv' | exact Hk'].
    + intros [H|(v' & [<-|Hv'] & Hk')].
      * left; left; exact H.
      * left; right. congruence.
      * right. exists v'. split; assumption.
Qed.

(** [cull] once the lookup dictionary is built and the values to keep are
    fixed. *)
Lemma cull_keep_values (field : string) (V : list pyval) (self : DataRecords)
  (ks : list key) :
  record_keys field (records self) = Ok ks ->
  cull field (Some V) None self =
  if negb (provided (Some V)) then Raise (DataRecordsError no_criteria)
  else
    (inds <- fold_left (gather (tabulate 0 ks [])) V (Ok []) ;;
     Ok (keep_inds inds self, len (keep_inds inds self))).
Proof.
  intros Hks. unfold cull.
  rewrite (proj1 (@build_lookup_keys field self ks Hks)). reflexivity.
Qed.

(** Two lists of known values with the same members keep the same
    records. *)
Lemma keep_values_ext (self : DataRecords) (ks : list key)
  (K K' : list pyval) :
  (forall v, In v K -> exists k, v = key_value k /\ In k ks) ->
  (forall v, In v K <-> In v K') ->
  (if negb (provided (Some K)) then Raise (DataRecordsError no_criteria)
   else
     (inds <- fold_left (gather (tabulate 0 ks [])) K (Ok []) ;;
      Ok (keep_inds inds self, len (keep_inds inds self)))) =
  (if negb (provided (Some K')) then Raise (DataRecordsError no_criteria)
   else
     (inds <- fold_left (gather (tabulate 0 ks [])) K' (Ok []) ;;
      Ok (keep_inds inds self, len (keep_inds inds self)))).
Proof.
  intros Hknown Hsame.
  assert (Hprov : provided (Some K) = provided (Some K')).
  { destruct K as [|v K], K' as [|v' K']; simpl; try reflexivity.
    - destruct (proj2 (Hsame v') (or_introl eq_refl)).
    - destruct (proj1 (Hsame v) (or_introl eq_refl)). }
  rewrite <- Hprov. destruct (provided (Some K)); simpl; [|reflexivity].
  assert (Hlud : forall (L : list pyval),
             (forall v, In v L -> In v K) ->
             forall v, In v L ->
               exists k, hash_key v = Some k /\
                         lookup_has (tabulate 0 ks []) k = true).
  { intros L HL v Hv. destruct (Hknown v (HL v Hv)) as (k & -> & Hk).
    exists k. split; [apply hash_key_value|].
    rewrite tabulate_has. simpl. apply key_mem_In, Hk. }
  destruct (@gather_fold (tabulate 0 ks []) K (Hlud K (fun v H => H)) [])
    as (inds & -> & Hin).
  destruct (@gather_fold (tabulate 0 ks []) K'
              (Hlud K' (fun v H => proj2 (Hsame v) H)) [])
    as (inds' & -> & Hin').
  simpl.
  assert (Heq : keep_inds inds self = keep_inds inds' self).
  { unfold keep_inds. f_equal. apply keep_from_ext.
    intros j. rewrite Hin, Hin'. split;
      (intros [[]|(v & k & Hv & Hk & Hj)]; right; exists v, k;
       repeat split; auto; apply Hsame; exact Hv). }
  rewrite Heq. reflexivity.
Qed.

(** ** The claims about [cull] *)

(** C2, amended: when the distinct values of the field can be computed
    (every record has the field, with a hashable value) and [V] is a non-empty
    list of values that all occur in the field, [cull] with [keep_values=V]
    succeeds and returns the new length, and the distinct values of the field
    are then exactly those of [V], which is [V] intersected with the distinct
    values before the call. *)
Theorem cull_keeps_given_values (field : string) (V before : list pyval)
  (self : DataRecords) :
  build_keyset field self = Ok before ->
  V <> [] ->
  (forall v, In v V -> In v before) ->
  exists (self' : DataRecords) (after : list pyval),
    cull field (Some V) None self = Ok (self', len self') /\
    build_keyset field self' = Ok after /\
    (forall v, In v after <-> In v V /\ In v before) /\
    (forall v, In v after <-> In v V).
Proof.
  intros Hbefore HV Hsub.
  destruct (@build_keyset_keys field self before Hbefore)
    as (ks & Hks & Hvalues).
  destruct (@build_lookup_keys field self ks Hks) as (_ & Hhas & Hidx).
  rewrite (@cull_keep_values field V self ks Hks).
  assert (Hprov : provided (Some V) = true)
    by (destruct V; [congruence | reflexivity]).
  rewrite Hprov. simpl.
  assert (Hknown : forall v, In v V ->
             exists k, hash_key v = Some k /\
                       lookup_has (tabulate 0 ks []) k = true).
  { intros v Hv. apply Hsub, Hvalues in Hv. destruct Hv as (k & -> & Hk).
    exists k. split; [apply hash_key_value|].
    rewrite Hhas. apply key_mem_In, Hk. }
  destruct (@gather_fold (tabulate 0 ks []) V Hknown [])
    as (inds & -> & Hinds).
  simpl. exists (keep_inds inds self).
  assert (Hkeys : record_keys field (records (keep_inds inds self)) =
                  Ok (keep_from 0 inds ks)).
  { unfold record_keys, keep_inds, __elements__. simpl.
    apply keep_from_for_each. exact Hks. }
  destruct (@keyset_of_keys field (keep_inds inds self) _ Hkeys)
    as (after & Hafter & Hin).
  exists after. split; [reflexivity|]. split; [exact Hafter|].
  assert (Hchar : forall v, In v after <-> In v V /\ In v before).
  { intros v. rewrite Hin. split.
    - intros (k & -> & Hk). apply keep_from_In in Hk.
      destruct Hk as (n & Hn & Hnth). simpl in Hn.
      apply Hinds in Hn. destruct Hn as [[]|(v' & k' & Hv' & Hk' & Hj)].
      apply Hidx in Hj. rewrite Hnth in Hj. injection Hj as <-.
      apply hash_key_inv in Hk'. subst v'. split; [exact Hv'|].
      apply Hvalues. exists k. split; [reflexivity|].
      eapply nth_error_In; eauto.
    - intros [Hv Hb]. apply Hvalues in Hb. destruct Hb as (k & -> & Hk).
      exists k. split; [reflexivity|].
      apply In_nth_error in Hk. destruct Hk as (n & Hn).
      apply keep_from_In. exists n. split; [|exact Hn]. simpl.
      apply Hinds. right. exists (key_value k), k.
      repeat split; [exact Hv | apply hash_key_value | apply Hidx, Hn]. }
  split; [exact Hchar|].
  intros v. rewrite Hchar. split; [tauto | auto].
Qed.

(** C3, amended: when the distinct values of the field can be computed, for
    every list [D] of hashable values, [cull] with [remove_values=D] leaves
    the container in the same state as [cull] with [keep_values] an
    enumeration [K] of the distinct values of the field before the call
    minus [D] (a call that raises leaves the container as it was).  For a
    non-empty [D] the two calls agree in everything: container, returned
    length, or exception. *)
Theorem remove_values_is_keep_complement (field : string)
  (D K before : list pyval) (self : DataRecords) :
  build_keyset field self = Ok before ->
  Forall hashable D ->
  (forall v, In v K <-> In v before /\ ~ In v D) ->
  container_after self (cull field None (Some D) self) =
  container_after self (cull field (Some K) None self) /\
  (D <> [] -> cull field None (Some D) self = cull field (Some K) None self).
Proof.
  intros Hbefore HD HK.
  destruct (@build_keyset_keys field self before Hbefore)
    as (ks & Hks & Hvalues).
  destruct (@build_lookup_keys field self ks Hks) as (Hlud & Hhas & Hidx).
  rewrite (@cull_keep_values field K self ks Hks).
  assert (Hknown : forall v, In v K -> exists k, v = key_value k /\ In k ks).
  { intros v Hv. apply HK in Hv. apply Hvalues, Hv. }
  destruct D as [|d D].
  - (* nothing to remove: the call raises, the other keeps every record *)
    split; [|congruence].
    assert (Hraise : cull field None (Some []) self =
                     Raise (DataRecordsError no_criteria))
      by (unfold cull; rewrite Hlud; reflexivity).
    rewrite Hraise. cbn [container_after].
    destruct (provided (Some K)) eqn:Hprov; cbn [negb]; [|reflexivity].
    assert (Hlook : forall v, In v K ->
               exists k, hash_key v = Some k /\
                         lookup_has (tabulate 0 ks []) k = true).
    { intros v Hv. destruct (Hknown v Hv) as (k & -> & Hk).
      exists k. split; [apply hash_key_value|].
      rewrite Hhas. apply key_mem_In, Hk. }
    destruct (@gather_fold (tabulate 0 ks []) K Hlook [])
      as (inds & -> & Hinds).
    simpl. unfold keep_inds, __elements__.
    rewrite keep_from_all; [destruct self; reflexivity|].
    intros n Hn. simpl. apply Hinds. right.
    assert (Hlen : List.length ks = List.length (records self))
      by (apply (@for_each_length _ _ (field_key field)), Hks).
    destruct (nth_error ks n) as [k|] eqn:Hnth.
    + exists (key_value k), k. repeat split.
      * apply HK. split; [|intros []].
        apply Hvalues. exists k. split; [reflexivity|].
        eapply nth_error_In; eauto.
      * apply hash_key_value.
      * apply Hidx, Hnth.
    + apply nth_error_None in Hnth. lia.
  - (* something to remove: both calls keep the same values *)
    assert (Heq : cull field None (Some (d :: D)) self =
                  if negb (provided (Some K))
                  then Raise (DataRecordsError no_criteria)
                  else
                    (inds <- fold_left (gather (tabulate 0 ks [])) K (Ok []) ;;
                     Ok (keep_inds inds self, len (keep_inds inds self)))).
    { unfold cull. rewrite Hlud.
      cbn [bind provided values_of]. unfold to_set.
      destruct (@to_set_fold (d :: D) HD []) as (removed & -> & Hrem).
      cbn [bind].
      apply keep_values_ext.
      - intros v Hv. apply in_map_iff in Hv. destruct Hv as (k & <- & Hk).
        apply filter_In in Hk. destruct Hk as [Hk _].
        apply lookup_keys_has in Hk. rewrite Hhas in Hk.
        exists k. split; [reflexivity | apply key_mem_In, Hk].
      - intros v. cbn [values_of]. rewrite HK, Hvalues, in_map_iff. split.
        + intros (k & <- & Hk). apply filter_In in Hk.
          destruct Hk as [Hk Hnot].
          apply lookup_keys_has in Hk. rewrite Hhas in Hk.
          apply key_mem_In in Hk. apply negb_true_iff, key_mem_false in Hnot.
          split; [exists k; split; [reflexivity | exact Hk]|].
          intros Hin. apply Hnot, Hrem. right.
          exists (key_value k). split; [exact Hin | apply hash_key_value].
        + intros [(k & -> & Hk) Hnot]. exists k. split; [reflexivity|].
          apply filter_In. split.
          * apply lookup_keys_has. rewrite Hhas. apply key_mem_In, Hk.
          * apply negb_true_iff, key_mem_false. intros Hin.
            apply Hrem in Hin. destruct Hin as [[]|(v & Hv & Hkv)].
            apply hash_key_inv in Hkv. subst v. exact (Hnot Hv). }
    rewrite Heq. split; [reflexivity | intros _; reflexivity].
Qed.

(** ** The claims on three labeled videos *)

Import RecordExamples.

Example videos_tables :
  build_keyset "label" videos = Ok [PStr "cat"; PStr "dog"] /\
  build_lookup "label" videos = Ok [(KStr "cat", [0; 2]); (KStr "dog", [1])] /\
  slice "label" videos = Ok [PStr "cat"; PStr "dog"; PStr "cat"] /\
  build_keyset "group" videos = Raise (AttributeError "group").
Proof. repeat split. Qed.

Example from_dict_missing_label :
  from_dict LabeledVideoRecord
            (JDict [("video_path", JStr "a.mp4"); ("group", JNull)]) =
  Raise (KeyError (PStr "label")).
Proof. reflexivity. Qed.

Lemma from_dict_of_to_dict_fails_witness :
  DataRecords_from_dict one_video_dict None_ =
  Raise (AttributeError "from_dict").
Proof.
  destruct (@from_dict_of_to_dict_fails one_video one_video_dict eq_refl)
    as (Hraise & _).
  apply Hraise. discriminate.
Defined.

Lemma from_dict_required_optional_witness :
  exists r : instance,
    from_dict LabeledVideoRecord
              (JDict [("label", JStr "cat"); ("extra", JInt 3);
                      ("video_path", JStr "a.mp4")]) = Ok r /\
    getattr r "label" = Ok (PStr "cat") /\
    hasattr r "group" = false /\
    hasattr r "extra" = false.
Proof.
  destruct (from_dict_required_optional
              LabeledVideoRecord
              [("label", JStr "cat"); ("extra", JInt 3);
               ("video_path", JStr "a.mp4")]) as (_ & Hbuilt).
  destruct Hbuilt as (r & Hr & _ & Hcopied & Habsent & Hignored).
  - intros k [<-|[<-|[]]]; reflexivity.
  - exists r. split; [exact Hr|]. split; [|split].
    + apply Hcopied; [right; left; reflexivity | reflexivity].
    + apply Habsent; [left; reflexivity | reflexivity].
    + apply Hignored. intros [H|[H|[H|[]]]]; discriminate.
Defined.

Lemma unset_optional_pruned_witness :
  hasattr cat_video "group" = false /\ ~ In "group" (attributes cat_video).
Proof.
  destruct (@unset_optional_pruned
              LabeledVideoRecord
              [("video_path", PStr "a.mp4"); ("label", PStr "cat")]
              cat_video "group" eq_refl (or_introl eq_refl)) as (Hunset & _).
  destruct (Hunset eq_refl) as (Hhas & _ & Hnot).
  split; assumption.
Defined.

Lemma remove_values_take_precedence_witness :
  cull "label" (Some [PStr "cat"]) (Some [PStr "cat"]) videos =
  cull "label" None (Some [PStr "cat"]) videos.
Proof.
  apply remove_values_take_precedence; discriminate.
Defined.

Lemma cull_keeps_given_values_witness :
  exists (self' : DataRecords) (after : list pyval),
    cull "label" (Some [PStr "cat"]) None videos = Ok (self', len self') /\
    build_keyset "label" self' = Ok after /\
    (forall v, In v after <->
               In v [PStr "cat"] /\ In v [PStr "cat"; PStr "dog"]) /\
    (forall v, In v after <-> In v [PStr "cat"]).
Proof.
  apply (@cull_keeps_given_values "label" [PStr "cat"]
           [PStr "cat"; PStr "dog"] videos).
  - reflexivity.
  - discriminate.
  - intros v [<-|[]]. left; reflexivity.
Defined.

(** C2 as worded fails: a value to keep that no record has is looked up in
    the plain dictionary returned by [build_lookup], and [lud[v]] raises
    [KeyError]. *)
Lemma cull_unknown_value_raises :
  build_keyset "label" videos = Ok [PStr "cat"; PStr "dog"] /\
  cull "label" (Some [PStr "bird"]) None videos =
  Raise (KeyError (PStr "bird")) /\
  ~ cull_keeps_intersection "label" [PStr "bird"] videos.
Proof.
  split; [reflexivity|]. split; [reflexivity|].
  intros (self' & n & before & after & _ & Hcull & _).
  discriminate Hcull.
Qed.

Lemma remove_values_is_keep_complement_witness :
  container_after videos (cull "label" None (Some [PStr "cat"]) videos) =
  container_after videos (cull "label" (Some [PStr "dog"]) None videos) /\
  ([PStr "cat"] <> [] ->
   cull "label" None (Some [PStr "cat"]) videos =
   cull "label" (Some [PStr "dog"]) None videos).
Proof.
  apply (@remove_values_is_keep_complement "label" [PStr "cat"]
           [PStr "dog"] [PStr "cat"; PStr "dog"] videos).
  - reflexivity.
  - constructor; [discriminate | constructor].
  - intros v. simpl. split.
    + intros [<-|[]]. split; [right; left; reflexivity|].
      intros [H|[]]. discriminate.
    + intros [[<-|[<-|[]]] Hnot].
      * exfalso. apply Hnot. left; reflexivity.
      * left; reflexivity.
Defined.

(** C3 as worded fails: [set(remove_values)] raises [TypeError] on a list
    that holds an unhashable value, so nothing is removed, while keeping the
    distinct values minus that list removes the records it names. *)
Lemma remove_unhashable_value_raises :
  cull "label" None (Some [PData (JList []); PStr "cat"]) videos =
  Raise (TypeError (Unhashable (PData (JList [])))) /\
  cull "label" (Some [PStr "dog"]) None videos =
  Ok (DataRecords__init__ (PClass LabeledVideoRecord) [dog_video], 1) /\
  ~ remove_is_keep_complement "label" [PData (JList []); PStr "cat"] videos.
Proof.
  split; [reflexivity|]. split; [reflexivity|].
  intros Hclaim.
  specialize (Hclaim [PStr "cat"; PStr "dog"] [PStr "dog"] eq_refl).
  assert (Hsame : container_after videos
                    (cull "label" None
                          (Some [PData (JList []); PStr "cat"]) videos) =
                  container_after videos
                    (cull "label" (Some [PStr "dog"]) None videos)).
  { apply Hclaim. intros v. simpl. split.
    - intros [<-|[]]. split; [right; left; reflexivity|].
      intros [H|[H|[]]]; discriminate.
    - intros [[<-|[<-|[]]] Hnot].
      + exfalso. apply Hnot. right; left; reflexivity.
      + left; reflexivity. }
  discriminate Hsame.
Qed.

(** With nothing to remove the call raises and the container keeps every
    record, as after keeping every value. *)
Example remove_nothing :
  cull "label" None (Some []) videos = Raise (DataRecordsError no_criteria) /\
  cull "label" (Some [PStr "cat"; PStr "dog"]) None videos = Ok (videos, 3).
Proof. split; reflexivity. Qed.

End RecordsFacts.

(** * Further properties of DataFileSequence *)

Unset Implicit Arguments.

Module FileSequenceMore.

Import FileSequence.
Import FileSequenceFacts.

Open Scope Z_scope.

Section More.

Variable format : string -> Z -> string.

Lemma with_upper_same (self : DataFileSequence) :
  with_upper (upper_bound self) self = self.
Proof. destruct self; reflexivity. Qed.

Lemma with_lower_same (self : DataFileSequence) :
  with_lower (lower_bound self) self = self.
Proof. destruct self; reflexivity. Qed.

Lemma indices_from_snoc (n : nat) :
  forall lower : Z,
    indices_from lower (S n) =
    indices_from lower n ++ [lower + Z.of_nat n].
Proof.
  induction n as [|n IH]; intros lower.
  - simpl. f_equal. lia.
  - change (indices_from lower (S (S n)))
      with (lower :: indices_from (lower + 1) (S n)).
    rewrite IH. simpl. do 3 f_equal. lia.
Qed.

(** The four ways a call of [gen_path] can end. *)
Lemma gen_path_cases (self : DataFileSequence) (index : Z) :
  let l := lower_bound self in
  let u := upper_bound self in
  let path := format (sequence self) index in
  (exists e, gen_path format index self = (self, Raise e)) \/
  (gen_path format index self = (self, Ok path) /\ l <= index <= u) \/
  (gen_path format index self = (with_lower index self, Ok path) /\
   immutable_bounds self = false /\ 0 <= index /\ index = l - 1) \/
  (gen_path format index self = (with_upper index self, Ok path) /\
   immutable_bounds self = false /\ 0 <= index /\ index = u + 1 /\
   index <> l - 1).
Proof.
  destruct self as [patt imm l u it]; unfold_methods.
  destruct imm; simpl; compare_indices; simpl;
    first
      [ left; eexists; reflexivity
      | right; left; split; [reflexivity | lia]
      | right; right; left; repeat split; (reflexivity || lia)
      | right; right; right; repeat split; (reflexivity || lia) ].
Qed.

(** X1: one call of [gen_path] moves at most one bound, outward and by one
    index; it touches neither the pattern, the flag nor the cursor; a call
    that raises leaves the object as it was; a call that returns gives the
    pattern instantiated with the index, and the index is then inside the
    bounds. *)
Theorem gen_path_one_step (self : DataFileSequence) (index : Z) :
  bounds_ordered self ->
  let r := gen_path format index self in
  let self' := state_after r in
  sequence self' = sequence self /\
  immutable_bounds self' = immutable_bounds self /\
  _iter_index self' = _iter_index self /\
  lower_bound self - 1 <= lower_bound self' <= lower_bound self /\
  upper_bound self <= upper_bound self' <= upper_bound self + 1 /\
  (lower_bound self' = lower_bound self \/
   upper_bound self' = upper_bound self) /\
  (is_ok (outcome r) = false -> self' = self) /\
  (is_ok (outcome r) = true ->
   outcome r = Ok (format (sequence self) index) /\
   check_bounds index self' = true).
Proof.
  intros Hlu r self'. subst self' r.
  destruct (gen_path_cases self index)
    as [(e & ->)|[(-> & Hin)|[(-> & Himm & H0 & Hl)|(-> & Himm & H0 & Hu & Hne)]]];
    destruct self as [patt imm l u it];
    unfold bounds_ordered, lower_bound, upper_bound, state_after, outcome,
      check_bounds, with_lower, with_upper in *;
    simpl in *;
    (repeat split; intros; try reflexivity; try discriminate; try lia; auto);
    compare_indices.
Qed.

Lemma gen_path_up (self : DataFileSequence) :
  immutable_bounds self = false ->
  bounds_ordered self ->
  0 <= upper_bound self + 1 ->
  gen_path format (upper_bound self + 1) self =
  (with_upper (upper_bound self + 1) self,
   Ok (format (sequence self) (upper_bound self + 1))).
Proof.
  destruct self as [patt imm l u it]; unfold_methods; intros -> Hlu Hu.
  simpl; compare_indices.
Qed.

Lemma gen_path_down (self : DataFileSequence) :
  immutable_bounds self = false ->
  0 <= lower_bound self - 1 ->
  gen_path format (lower_bound self - 1) self =
  (with_lower (lower_bound self - 1) self,
   Ok (format (sequence self) (lower_bound self - 1))).
Proof.
  destruct self as [patt imm l u it]; unfold_methods; intros -> Hl.
  simpl; compare_indices.
Qed.

(** X2: a mutable sequence grows upward one index at a time: asking for
    [u + 1], [u + 2], ..., [u + n] in this order succeeds every time and ends
    with [upper_bound = u + n]; downward, asking for [l - 1], ..., [l - n]
    succeeds as long as [l - n >= 0] and ends with [lower_bound = l - n]. *)
Theorem gen_paths_extend (self : DataFileSequence) (n : nat) :
  immutable_bounds self = false ->
  bounds_ordered self ->
  let l := lower_bound self in
  let u := upper_bound self in
  (0 <= u + 1 ->
   gen_paths format (indices_from (u + 1) n) self =
   (with_upper (u + Z.of_nat n) self,
    Ok (map (format (sequence self)) (indices_from (u + 1) n)))) /\
  (0 <= l - Z.of_nat n ->
   gen_paths format (indices_down (l - 1) n) self =
   (with_lower (l - Z.of_nat n) self,
    Ok (map (format (sequence self)) (indices_down (l - 1) n)))).
Proof.
  intros Himm Hlu. split.
  - revert self Himm Hlu.
    induction n as [|n IH]; intros self Himm Hlu Hu.
    + simpl. rewrite Z.add_0_r, with_upper_same. reflexivity.
    + cbn [indices_from gen_paths map].
      unfold bind at 1. rewrite (gen_path_up self Himm Hlu Hu).
      specialize (IH (with_upper (upper_bound self + 1) self)).
      destruct self as [patt imm l u it]; unfold_methods.
      rewrite IH by (auto; lia).
      do 2 f_equal. lia.
  - revert self Himm Hlu.
    induction n as [|n IH]; intros self Himm Hlu Hl.
    + simpl. rewrite Z.sub_0_r, with_lower_same. reflexivity.
    + cbn [indices_down gen_paths map].
      unfold bind at 1. rewrite (gen_path_down self Himm) by lia.
      specialize (IH (with_lower (lower_bound self - 1) self)).
      destruct self as [patt imm l u it]; unfold_methods.
      rewrite IH by (auto; lia).
      do 2 f_equal. lia.
Qed.

Lemma gen_path_raises (self self' : DataFileSequence) (index : Z)
  (e : exception) :
  gen_path format index self = (self', Raise e) ->
  self' = self /\ exists msg, e = DataFileSequenceError msg.
Proof.
  destruct self as [patt imm l u it]; unfold_methods.
  destruct imm; simpl; compare_indices; simpl;
    intros Hcall; inversion Hcall; subst; split; try reflexivity; eexists;
    reflexivity.
Qed.

(** The three ways a call of [__next__] can go. *)
Lemma next_cases (self : DataFileSequence) :
  (_iter_index self = None /\
   __next__ format self = (self, Raise TypeError)) \/
  exists i : Z,
    _iter_index self = Some i /\
    ((check_bounds (i + 1) self = false /\
      __next__ format self = (with_iter None self, Raise StopIteration)) \/
     (check_bounds (i + 1) self = true /\
      __next__ format self =
      gen_path format (i + 1) (with_iter (Some (i + 1)) self))).
Proof.
  destruct self as [patt imm l u [i|]]; [right; exists i | left];
    (split; [reflexivity|]).
  - unfold __next__, bind, get, modify, raise, with_iter, check_bounds,
      lower_bound, upper_bound; simpl.
    destruct ((i + 1 <? l) || (i + 1 >? u)); simpl; [left | right];
      split; reflexivity.
  - reflexivity.
Qed.

Lemma apply_keeps_lower_nonnegative (o : operation) (self : DataFileSequence) :
  keeps_lower_bound o = true ->
  0 <= lower_bound self ->
  0 <= lower_bound (apply format o self).
Proof.
  intros Ho Hl.
  assert (Hgen : forall (s : DataFileSequence) (i : Z),
             0 <= lower_bound s ->
             0 <= lower_bound (state_after (gen_path format i s))).
  { intros s i Hs.
    destruct (gen_path_cases s i)
      as [(e & ->)|[(-> & _)|[(-> & _ & H0 & _)|(-> & _)]]];
      destruct s; simpl in *; assumption. }
  destruct o; simpl in *; try discriminate; try (apply Hgen; exact Hl);
    try exact Hl.
  - destruct self as [patt [] l u it]; unfold_methods; exact Hl.
  - destruct (next_cases self) as [(_ & ->)|(i & _ & [(_ & ->)|(_ & ->)])].
    + exact Hl.
    + destruct self; exact Hl.
    + apply Hgen. destruct self; exact Hl.
Qed.

(** X3: starting from a non-negative lower bound, no operation other than
    the [lower_bound] setter makes it negative: [gen_path] refuses to grow a
    sequence below index zero. *)
Theorem lower_bound_stays_nonnegative (ops : list operation)
  (self : DataFileSequence) :
  0 <= lower_bound self ->
  forallb keeps_lower_bound ops = true ->
  0 <= lower_bound (run format ops self).
Proof.
  revert self; induction ops as [|o ops IH]; intros self Hl Hops; simpl in *.
  - exact Hl.
  - apply andb_true_iff in Hops. destruct Hops as [Ho Hops].
    apply IH; [|exact Hops].
    apply apply_keeps_lower_nonnegative; assumption.
Qed.

Lemma drain_leaves_no_cursor (fuel : nat) :
  forall (acc paths : list string) (self self' : DataFileSequence),
    drain format fuel acc self = Some (self', Ok paths) ->
    _iter_index self' = None.
Proof.
  induction fuel as [|fuel IH]; intros acc paths self self'; simpl;
    [discriminate|].
  destruct (__next__ format self) as [s1 [p|e]] eqn:Hnext.
  - apply IH.
  - destruct e; try discriminate.
    intros H; injection H as <- _.
    destruct (next_cases self) as [(_ & Hn)|(i & _ & [(_ & Hn)|(_ & Hn)])];
      rewrite Hn in Hnext.
    + discriminate.
    + injection Hnext as <-. destruct self; reflexivity.
    + apply gen_path_raises in Hnext.
      destruct Hnext as (_ & msg & Hmsg). discriminate.
Qed.

(** X4: once a loop over the sequence has ended, the cursor is gone: one
    more [__next__] raises [TypeError] (from [None += 1]), not
    [StopIteration], and changes nothing. *)
Theorem next_after_loop (fuel : nat) (self self' : DataFileSequence)
  (paths : list string) :
  iterate format fuel self = Some (self', Ok paths) ->
  _iter_index self' = None /\
  __next__ format self' = (self', Raise TypeError).
Proof.
  unfold iterate. intros H. apply drain_leaves_no_cursor in H.
  split; [exact H|].
  destruct (next_cases self') as [(_ & Hn)|(i & Hi & _)]; [exact Hn|].
  congruence.
Qed.

(** X5: after a mutable sequence was extended by [gen_path(u + 1)], a loop
    yields the paths it yielded before, followed by the new path. *)
Theorem iterate_after_extension (self : DataFileSequence) (fuel : nat) :
  immutable_bounds self = false ->
  bounds_ordered self ->
  0 <= lower_bound self ->
  (Z.to_nat (upper_bound self - lower_bound self + 1) + 1 < fuel)%nat ->
  let extended := state_after (gen_path format (upper_bound self + 1) self) in
  extended = with_upper (upper_bound self + 1) self /\
  iterate format fuel extended =
  Some (with_iter None extended,
        Ok (map (format (sequence self)) (indices self) ++
            [format (sequence self) (upper_bound self + 1)])).
Proof.
  intros Himm Hlu Hl Hfuel extended. subst extended.
  unfold bounds_ordered in Hlu.
  rewrite (gen_path_up self Himm Hlu) by lia.
  unfold state_after; cbn [fst]. split; [reflexivity|].
  unfold iterate.
  rewrite (@drain_interval format
             (S (Z.to_nat (upper_bound self - lower_bound self + 1)))
             (lower_bound self - 1) []
             (state_after (__iter__ (with_upper (upper_bound self + 1) self)))
             fuel);
    try (destruct self; unfold_methods; simpl in *; auto; lia).
  rewrite indices_from_snoc, map_app. unfold indices.
  destruct self as [patt imm l u it]; unfold_methods; simpl in *.
  replace (l - 1 + 1) with l by lia.
  replace (l + Z.of_nat (Z.to_nat (u - l + 1))) with (u + 1) by lia.
  reflexivity.
Qed.

(** X6: on a mutable sequence the bound setters reach every interval
    [v <= w], but the order matters: lower bound first works when
    [v <= upper_bound], upper bound first works when [lower_bound <= w], and
    one of the two always applies; in the other order the first setter is
    clamped ([lower_bound = v] above the upper bound stores the upper
    bound). *)
Theorem setters_reach_interval (self : DataFileSequence) (v w : Z) :
  immutable_bounds self = false ->
  bounds_ordered self ->
  v <= w ->
  let lower_first := run format [OpSetLower v; OpSetUpper w] self in
  let upper_first := run format [OpSetUpper w; OpSetLower v] self in
  (v <= upper_bound self ->
   lower_bound lower_first = v /\ upper_bound lower_first = w) /\
  (lower_bound self <= w ->
   lower_bound upper_first = v /\ upper_bound upper_first = w) /\
  (v <= upper_bound self \/ lower_bound self <= w) /\
  (upper_bound self < v ->
   lower_bound lower_first = upper_bound self /\
   upper_bound lower_first = w) /\
  (w < lower_bound self ->
   lower_bound upper_first = v /\
   upper_bound upper_first = lower_bound self).
Proof.
  destruct self as [patt imm l u it]; unfold_methods; intros -> Hlu Hvw.
  simpl. repeat split; intros; lia.
Qed.

End More.

(** ** The further properties on the frames *)

Import Examples.

Lemma gen_path_one_step_witness :
  state_after (gen_path printf 11 frames_mutable) =
  with_upper 11 frames_mutable /\
  check_bounds 11 (state_after (gen_path printf 11 frames_mutable)) = true /\
  state_after (gen_path printf 13 frames_mutable) = frames_mutable.
Proof.
  assert (Hordered : bounds_ordered frames_mutable)
    by (unfold bounds_ordered; simpl; lia).
  destruct (gen_path_one_step printf frames_mutable 11 Hordered)
    as (_ & _ & _ & _ & _ & _ & _ & Hok).
  destruct (gen_path_one_step printf frames_mutable 13 Hordered)
    as (_ & _ & _ & _ & _ & _ & Hraise & _).
  split; [reflexivity|]. split; [apply Hok; reflexivity|].
  apply Hraise. reflexivity.
Defined.

Lemma gen_paths_extend_witness :
  gen_paths printf [11; 12; 13] frames_mutable =
  (with_upper 13 frames_mutable,
   Ok ["frame-00011.png"; "frame-00012.png"; "frame-00013.png"]%string) /\
  gen_paths printf [2; 1; 0] frames_mutable =
  (with_lower 0 frames_mutable,
   Ok ["frame-00002.png"; "frame-00001.png"; "frame-00000.png"]%string).
Proof.
  assert (Hordered : bounds_ordered frames_mutable)
    by (unfold bounds_ordered; simpl; lia).
  destruct (gen_paths_extend printf frames_mutable 3 eq_refl Hordered)
    as (Hup & Hdown).
  split; [apply Hup | apply Hdown]; simpl; lia.
Defined.

Lemma lower_bound_stays_nonnegative_witness :
  0 <= lower_bound
         (run printf [OpGenPath 2; OpGenPath 1; OpGenPath 0; OpGenPath (-1);
                      OpIter; OpNext; OpSetUpper (-5)] frames_mutable).
Proof.
  apply lower_bound_stays_nonnegative; [simpl; lia | reflexivity].
Defined.

Lemma next_after_loop_witness :
  __next__ printf (with_iter None frames_immutable) =
  (with_iter None frames_immutable, Raise TypeError).
Proof.
  apply (next_after_loop printf 9 frames_immutable
           (with_iter None frames_immutable)
           ["frame-00003.png"; "frame-00004.png"; "frame-00005.png";
            "frame-00006.png"; "frame-00007.png"; "frame-00008.png";
            "frame-00009.png"; "frame-00010.png"]%string).
  reflexivity.
Defined.

Lemma iterate_after_extension_witness :
  iterate printf 10 (state_after (gen_path printf 11 frames_mutable)) =
  Some (with_upper 11 frames_mutable,
        Ok ["frame-00003.png"; "frame-00004.png"; "frame-00005.png";
            "frame-00006.png"; "frame-00007.png"; "frame-00008.png";
            "frame-00009.png"; "frame-00010.png"; "frame-00011.png"]%string).
Proof.
  assert (Hordered : bounds_ordered frames_mutable)
    by (unfold bounds_ordered; simpl; lia).
  destruct (iterate_after_extension printf frames_mutable 10 eq_refl Hordered)
    as (_ & Hloop); [simpl; lia | simpl; lia |].
  exact Hloop.
Defined.

Lemma setters_reach_interval_witness :
  lower_bound (run printf [OpSetUpper 30; OpSetLower 20] frames_mutable) = 20 /\
  upper_bound (run printf [OpSetUpper 30; OpSetLower 20] frames_mutable) = 30 /\
  lower_bound (run printf [OpSetLower 20; OpSetUpper 30] frames_mutable) = 10.
Proof.
  assert (Hordered : bounds_ordered frames_mutable)
    by (unfold bounds_ordered; simpl; lia).
  destruct (setters_reach_interval printf frames_mutable 20 30 eq_refl
              Hordered ltac:(lia)) as (_ & Hupper & _ & Hclamped & _).
  destruct Hupper as [H1 H2]; [simpl; lia|].
  destruct Hclamped as [H3 _]; [simpl; lia|].
  repeat split; assumption.
Defined.

End FileSequenceMore.

(** * Further properties of records and record containers *)

Module RecordsMore.

Import Records.
Import RecordsFacts.

Open Scope string_scope.
Open Scope list_scope.

(** ** Records *)

Lemma take_agree (d d' : dict json) (k : string) (acc : res (dict pyval)) :
  dict_get d k = dict_get d' k ->
  take (JDict d) acc k = take (JDict d') acc k /\
  take_if_in (JDict d) acc k = take_if_in (JDict d') acc k.
Proof.
  intros H. unfold take, take_if_in, subscript, contains, dict_has.
  rewrite H. split; reflexivity.
Qed.

Lemma fold_take_agree (d d' : dict json) (names : list string) :
  (forall k, In k names -> dict_get d k = dict_get d' k) ->
  forall acc : res (dict pyval),
    fold_left (take (JDict d)) names acc =
    fold_left (take (JDict d')) names acc /\
    fold_left (take_if_in (JDict d)) names acc =
    fold_left (take_if_in (JDict d')) names acc.
Proof.
  induction names as [|k names IH]; intros H acc; simpl.
  - split; reflexivity.
  - destruct (take_agree d d' k acc (H k (or_introl eq_refl))) as [-> ->].
    assert (Hrest : forall k', In k' names -> dict_get d k' = dict_get d' k')
      by (intros k' Hk'; apply H; right; exact Hk').
    split; [apply (IH Hrest) | apply (IH Hrest)].
Qed.

(** X7: [BaseDataRecord.from_dict] reads the dictionary at the required and
    the optional names only: two dictionaries that agree there, whatever
    their other keys and the order of their keys, give the same record or the
    same exception. *)
Theorem from_dict_reads_declared_names (cls : record_class)
  (d d' : dict json) :
  (forall k, In k (required cls ++ optional cls) ->
             dict_get d k = dict_get d' k) ->
  from_dict cls (JDict d) = from_dict cls (JDict d').
Proof.
  intros H. unfold from_dict, comprehension, comprehension_if_in.
  rewrite (proj1 (fold_take_agree d d' (required cls)
                    (fun k Hk => H k (in_or_app _ _ _ (or_introl Hk)))
                    (Ok []))).
  rewrite (proj2 (fold_take_agree d d' (optional cls)
                    (fun k Hk => H k (in_or_app _ _ _ (or_intror Hk)))
                    (Ok []))).
  reflexivity.
Qed.

Lemma clean_fold_nothing (opts : list string) :
  forall self : instance,
    (forall o, In o opts -> unset (__dict__ self) o = false) ->
    fold_left
      (fun self o =>
         if hasattr self o &&
            match getattr self o with
            | Ok v => is_no_default v
            | Raise _ => false
            end
         then delattr self o
         else self)
      opts self = self.
Proof.
  induction opts as [|o opts IH]; intros self H; simpl; [reflexivity|].
  assert (Ho : unset (__dict__ self) o = false)
    by (apply H; left; reflexivity).
  unfold hasattr, getattr, dict_has, unset in *.
  destruct (dict_get (__dict__ self) o) as [v|] eqn:Hget; simpl.
  - rewrite Ho. apply IH. intros o' Ho'. apply H. right; exact Ho'.
  - apply IH. intros o' Ho'. apply H. right; exact Ho'.
Qed.

(** X8: [clean_optional] deletes exactly the optional attributes bound to
    [no_default]: afterwards no optional name holds the sentinel, every
    attribute left has the value it had, an attribute that is not an unset
    optional one (a required one bound to [no_default] included) is still
    there, and cleaning again changes nothing. *)
Theorem clean_optional_prunes (self : instance) :
  let self' := clean_optional self in
  class_of self' = class_of self /\
  (forall o, In o (optional (class_of self)) ->
             getattr self' o <> Ok no_default) /\
  (forall k v, getattr self' k = Ok v -> getattr self k = Ok v) /\
  (forall k v,
      getattr self k = Ok v ->
      (v = no_default -> ~ In k (optional (class_of self))) ->
      getattr self' k = Ok v) /\
  clean_optional self' = self'.
Proof.
  intros self'. subst self'.
  assert (Hcls := proj1 (clean_optional_get self "")).
  assert (Hget := fun k => proj2 (clean_optional_get self k)).
  split; [exact Hcls|].
  assert (Hunset : forall o, In o (optional (class_of self)) ->
             unset (__dict__ (clean_optional self)) o = false).
  { intros o Ho. unfold unset at 1. rewrite Hget.
    apply str_mem_In in Ho. rewrite Ho. simpl.
    unfold unset. destruct (dict_get (__dict__ self) o) as [v|]; [|reflexivity].
    destruct (is_no_default v) eqn:Hv; [reflexivity | exact Hv]. }
  repeat split.
  - intros o Ho Hsentinel. specialize (Hunset o Ho).
    unfold getattr in Hsentinel. unfold unset in Hunset.
    destruct (dict_get (__dict__ (clean_optional self)) o) as [v|];
      [|discriminate].
    injection Hsentinel as ->. discriminate.
  - intros k v. unfold getattr. rewrite Hget.
    destruct (str_mem k (optional (class_of self)) &&
              unset (__dict__ self) k); [discriminate | auto].
  - intros k v Hk Hnot. unfold getattr in *. rewrite Hget.
    destruct (dict_get (__dict__ self) k) as [v'|] eqn:Hd; [|discriminate].
    injection Hk as ->.
    destruct (str_mem k (optional (class_of self))) eqn:Hmem; simpl;
      [|reflexivity].
    unfold unset. rewrite Hd.
    destruct v; simpl; try reflexivity.
    exfalso. apply (Hnot eq_refl). apply str_mem_In, Hmem.
  - unfold clean_optional at 1. rewrite Hcls.
    apply clean_fold_nothing. exact Hunset.
Qed.

(** X17: a [LabeledVideoRecord] always has its two required attributes with
    the values given, also when one of them is [no_default]; it has a [group]
    attribute, listed by [attributes()] after the other two, exactly when the
    [group] argument is not the sentinel. *)
Theorem LabeledVideoRecord_fields (video_path label group : pyval) :
  let r := LabeledVideoRecord__init__ video_path label group in
  class_of r = LabeledVideoRecord /\
  getattr r "video_path" = Ok video_path /\
  getattr r "label" = Ok label /\
  getattr r "group" =
  (if is_no_default group then Raise (AttributeError "group") else Ok group) /\
  attributes r =
  (if is_no_default group then ["video_path"; "label"]
   else ["video_path"; "label"; "group"]).
Proof. destruct group; repeat split. Qed.

(** X18: [LabeledVideoRecord.from_dict(d)] is the constructor call
    [LabeledVideoRecord(d["video_path"], d["label"])], with [group=d["group"]]
    when [d] has that key; it raises [KeyError] for [video_path] when that
    key is missing, and for [label] when only that one is. *)
Theorem LabeledVideoRecord_from_dict (d : dict json) :
  from_dict LabeledVideoRecord (JDict d) =
  match dict_get d "video_path", dict_get d "label" with
  | Some p, Some l =>
      Ok (LabeledVideoRecord__init__ (PData p) (PData l) (value_in d "group"))
  | Some _, None => Raise (KeyError (PStr "label"))
  | None, _ => Raise (KeyError (PStr "video_path"))
  end.
Proof.
  unfold from_dict, comprehension, comprehension_if_in, value_in.
  unfold take, take_if_in, subscript, contains, dict_has. simpl.
  destruct (dict_get d "video_path") as [p|]; simpl; [|reflexivity].
  destruct (dict_get d "label") as [l|]; simpl; [|reflexivity].
  destruct (dict_get d "group") as [g|]; reflexivity.
Qed.

(** ** Lookup dictionaries *)

Lemma tabulate_exact (ks : list key) :
  forall (i : nat) (lud : lookup) (k : key),
    lookup_indices (tabulate i ks lud) k =
    lookup_indices lud k ++ occurrences i k ks.
Proof.
  induction ks as [|k0 ks IH]; intros i lud k; simpl.
  - rewrite app_nil_r. reflexivity.
  - rewrite IH. unfold lookup_indices at 1. rewrite lookup_find_append.
    destruct (key_eq_dec k k0) as [->|Hk].
    + destruct (key_eq_dec k0 k0); [|congruence].
      rewrite <- app_assoc. reflexivity.
    + destruct (key_eq_dec k0 k); [congruence|].
      reflexivity.
Qed.

Lemma occurrences_bound (ks : list key) :
  forall (i j : nat) (k : key), In j (occurrences i k ks) -> i <= j.
Proof.
  induction ks as [|k0 ks IH]; intros i j k; simpl; [intros []|].
  destruct (key_eq_dec k0 k); simpl.
  - intros [<-|H]; [lia|]. apply IH in H. lia.
  - intros H. apply IH in H. lia.
Qed.

Lemma occurrences_sorted (ks : list key) :
  forall (i : nat) (k : key), StronglySorted lt (occurrences i k ks).
Proof.
  induction ks as [|k0 ks IH]; intros i k; simpl; [constructor|].
  destruct (key_eq_dec k0 k); [|apply IH].
  constructor; [apply IH|].
  apply Forall_forall. intros j Hj. apply occurrences_bound in Hj. lia.
Qed.

Lemma lookup_append_keys (lud : lookup) (k : key) (i : nat) :
  lookup_keys (lookup_append lud k i) =
  if key_mem k (lookup_keys lud) then lookup_keys lud
  else lookup_keys lud ++ [k].
Proof.
  unfold lookup_keys, key_mem.
  induction lud as [|[k0 l0] lud IH]; simpl; [reflexivity|].
  destruct (key_eq_dec k k0) as [->|Hk]; simpl.
  - destruct (key_eq_dec k0 k0); [reflexivity | congruence].
  - rewrite IH. destruct (key_eq_dec k0 k); [congruence|].
    destruct (in_dec key_eq_dec k (map fst lud)); reflexivity.
Qed.

Lemma tabulate_keys_NoDup (ks : list key) :
  forall (i : nat) (lud : lookup),
    NoDup (lookup_keys lud) -> NoDup (lookup_keys (tabulate i ks lud)).
Proof.
  induction ks as [|k ks IH]; intros i lud H; simpl; [exact H|].
  apply IH. rewrite lookup_append_keys.
  destruct (key_mem k (lookup_keys lud)) eqn:E; [exact H|].
  apply key_mem_false in E.
  apply NoDup_app; [exact H | repeat constructor; intros [] |].
  intros x Hx [<-|[]]. exact (E Hx).
Qed.

Lemma build_lookup_inv (field : string) (self : DataRecords) (lud : lookup) :
  build_lookup field self = Ok lud ->
  exists ks : list key,
    record_keys field (records self) = Ok ks /\ lud = tabulate 0 ks [].
Proof.
  unfold build_lookup, __elements__. rewrite build_lookup_tabulate.
  destruct (record_keys field (records self)) as [ks|e]; simpl;
    [|discriminate].
  intros H; injection H as <-. exists ks. split; reflexivity.
Qed.

(** The key at a position is the key of the record at that position. *)
Lemma record_keys_nth (field : string) (es : list instance) (ks : list key) :
  record_keys field es = Ok ks ->
  forall (i : nat) (k : key),
    nth_error ks i = Some k <->
    exists r, nth_error es i = Some r /\ field_key field r = Ok k.
Proof.
  unfold record_keys. intros H. apply for_each_Forall2 in H.
  induction H as [|r k0 es ks Hr _ IH]; intros i k.
  - split; [destruct i; discriminate|].
    intros (r & Hr & _). destruct i; discriminate.
  - destruct i as [|i]; simpl.
    + split.
      * intros Hk; injection Hk as <-. exists r. split; [reflexivity|exact Hr].
      * intros (r' & Hr' & Hk). injection Hr' as <-. congruence.
    + apply IH.
Qed.

(** X9: [build_lookup] maps every value that occurs in the field to the
    positions of the records that hold it, in ascending order and never an
    empty list; every record's position is listed under its value; no value
    has two entries. *)
Theorem build_lookup_positions (field : string) (self : DataRecords)
  (lud : lookup) :
  build_lookup field self = Ok lud ->
  NoDup (lookup_keys lud) /\
  (forall k idxs,
      lookup_find lud k = Some idxs ->
      idxs <> [] /\
      StronglySorted lt idxs /\
      forall i,
        In i idxs <->
        exists r, nth_error (records self) i = Some r /\
                  field_key field r = Ok k) /\
  (forall i r,
      nth_error (records self) i = Some r ->
      exists k idxs,
        field_key field r = Ok k /\
        lookup_find lud k = Some idxs /\ In i idxs).
Proof.
  intros H. destruct (build_lookup_inv field self lud H) as (ks & Hks & ->).
  destruct (@build_lookup_keys field self ks Hks) as (_ & Hhas & Hidx).
  split; [apply tabulate_keys_NoDup; constructor|]. split.
  - intros k idxs Hfind.
    assert (Hind : lookup_indices (tabulate 0 ks []) k = idxs)
      by (unfold lookup_indices; rewrite Hfind; reflexivity).
    assert (Hin : In k ks).
    { apply key_mem_In. rewrite <- Hhas. unfold lookup_has.
      rewrite Hfind. reflexivity. }
    split; [|split].
    + apply In_nth_error in Hin. destruct Hin as (j & Hj).
      apply Hidx in Hj. rewrite Hind in Hj. intros ->. exact Hj.
    + rewrite <- Hind, tabulate_exact. simpl. apply occurrences_sorted.
    + intros i. rewrite <- Hind, Hidx. apply record_keys_nth. exact Hks.
  - intros i r Hr.
    assert (Hlen : List.length ks = List.length (records self))
      by (apply (@for_each_length _ _ (field_key field)), Hks).
    destruct (nth_error ks i) as [k|] eqn:Hk.
    + pose proof (proj1 (record_keys_nth field _ ks Hks i k) Hk)
        as (r' & Hr' & Hkey).
      rewrite Hr in Hr'. injection Hr' as <-.
      exists k, (lookup_indices (tabulate 0 ks []) k).
      split; [exact Hkey|]. split; [|apply Hidx, Hk].
      assert (Hhask : lookup_has (tabulate 0 ks []) k = true).
      { rewrite Hhas. apply key_mem_In. eapply nth_error_In; eauto. }
      unfold lookup_has in Hhask. unfold lookup_indices.
      destruct (lookup_find (tabulate 0 ks []) k); [reflexivity|discriminate].
    + exfalso. apply nth_error_None in Hk.
      assert (i < List.length (records self))
        by (apply nth_error_Some; congruence).
      lia.
Qed.

(** ** Distinct values, slices and subsets *)

Lemma key_value_injective (k k' : key) : key_value k = key_value k' -> k = k'.
Proof.
  intros H. apply (f_equal hash_key) in H.
  rewrite !hash_key_value in H. congruence.
Qed.

Lemma NoDup_map_key_value (ks : list key) :
  NoDup ks -> NoDup (map key_value ks).
Proof.
  induction 1 as [|k ks Hk _ IH]; simpl; constructor; [|exact IH].
  intros Hin. apply in_map_iff in Hin. destruct Hin as (k' & Heq & Hk').
  apply key_value_injective in Heq. congruence.
Qed.

Lemma fold_set_add_NoDup (ks : list key) :
  forall acc : list key, NoDup acc -> NoDup (fold_left set_add ks acc).
Proof.
  induction ks as [|k ks IH]; intros acc H; simpl; [exact H|].
  apply IH. unfold set_add. destruct (key_mem k acc) eqn:E; [exact H|].
  apply key_mem_false in E.
  apply NoDup_app; [exact H | repeat constructor; intros [] |].
  intros x Hx [<-|[]]. exact (E Hx).
Qed.

Lemma build_keyset_exact (field : string) (self : DataRecords) :
  build_keyset field self =
  (ks <- record_keys field (records self) ;;
   Ok (map key_value (fold_left set_add ks []))).
Proof.
  unfold build_keyset, __elements__. rewrite keyset_fold. simpl.
  destruct (record_keys field (records self)); reflexivity.
Qed.

Lemma slice_of_keys (field : string) (es : list instance) :
  forall ks : list key,
    record_keys field es = Ok ks ->
    for_each (fun r => getattr r field) es = Ok (map key_value ks).
Proof.
  unfold record_keys.
  induction es as [|r es IH]; intros ks; simpl.
  - intros H; injection H as <-. reflexivity.
  - unfold field_key at 1.
    destruct (getattr r field) as [v|e]; simpl; [|discriminate].
    destruct (hash_key v) as [k|] eqn:Hk; simpl; [|discriminate].
    destruct (for_each (field_key field) es) as [ks'|e]; simpl;
      [|discriminate].
    intros H; injection H as <-.
    rewrite (IH ks' eq_refl). simpl.
    apply hash_key_inv in Hk. rewrite Hk. reflexivity.
Qed.

(** X10: when [build_keyset] returns, its list has no duplicates and holds
    exactly the values that [slice] lists for the records and exactly the
    keys of the dictionary that [build_lookup] returns; [slice] has one value
    per record, so there are at most as many distinct values as records. *)
Theorem build_keyset_distinct (field : string) (self : DataRecords)
  (values : list pyval) :
  build_keyset field self = Ok values ->
  NoDup values /\
  List.length values <= len self /\
  exists (column : list pyval) (lud : lookup),
    slice field self = Ok column /\
    build_lookup field self = Ok lud /\
    List.length column = len self /\
    (forall v, In v values <-> In v column) /\
    (forall v, In v values <->
               exists k, v = key_value k /\ In k (lookup_keys lud)).
Proof.
  rewrite build_keyset_exact.
  destruct (record_keys field (records self)) as [ks|e] eqn:Hks; simpl;
    [|discriminate].
  intros H; injection H as <-.
  destruct (@build_lookup_keys field self ks Hks) as (Hlud & Hhas & _).
  assert (Hlen : List.length ks = List.length (records self))
    by (apply (@for_each_length _ _ (field_key field)), Hks).
  assert (Hmem : forall v,
             In v (map key_value (fold_left set_add ks [])) <->
             In v (map key_value ks)).
  { intros v. rewrite !in_map_iff. split; intros (k & Hv & Hk); exists k;
      (split; [exact Hv|]); apply fold_set_add_In in Hk || apply fold_set_add_In.
    - destruct Hk as [[]|Hk]. exact Hk.
    - right. exact Hk. }
  assert (Hnodup : NoDup (map key_value (fold_left set_add ks [])))
    by (apply NoDup_map_key_value, fold_set_add_NoDup; constructor).
  split; [exact Hnodup|]. split.
  - unfold len, __elements__. rewrite <- Hlen, <- (length_map key_value ks).
    apply NoDup_incl_length; [exact Hnodup|].
    intros v Hv. apply Hmem, Hv.
  - exists (map key_value ks), (tabulate 0 ks []).
    split; [apply slice_of_keys, Hks|]. split; [exact Hlud|].
    split; [rewrite length_map; exact Hlen|]. split; [exact Hmem|].
    intros v. rewrite Hmem, in_map_iff. split.
    + intros (k & <- & Hk). exists k. split; [reflexivity|].
      apply lookup_keys_has. rewrite Hhas. apply key_mem_In, Hk.
    + intros (k & -> & Hk). exists k. split; [reflexivity|].
      apply lookup_keys_has in Hk. rewrite Hhas in Hk.
      apply key_mem_In, Hk.
Qed.

Lemma build_subsets_from_keys (field : string) (es : list instance) :
  forall sss : subsets,
    build_subsets_from field es sss =
    (ks <- record_keys field es ;; Ok (tabulate_records es ks sss)).
Proof.
  unfold record_keys.
  induction es as [|r es IH]; intros sss; simpl; [reflexivity|].
  destruct (field_key field r) as [k|e]; simpl; [|reflexivity].
  rewrite IH. destruct (for_each (field_key field) es); reflexivity.
Qed.

Lemma record_keys_raises (field : string) (es : list instance)
  (e : exception) :
  record_keys field es = Raise e ->
  e = AttributeError field \/ exists v, e = TypeError (Unhashable v).
Proof.
  unfold record_keys.
  induction es as [|r es IH]; simpl; [discriminate|].
  unfold field_key at 1, getattr.
  destruct (dict_get (__dict__ r) field) as [v|]; simpl.
  - destruct (hash_key v); simpl.
    + destruct (for_each (field_key field) es); simpl; [discriminate|].
      intros H; injection H as <-. apply IH. reflexivity.
    + intros H; injection H as <-. right. exists v. reflexivity.
  - intros H; injection H as <-. left. reflexivity.
Qed.

(** X11: the methods that read a field fail together: when [build_keyset]
    raises, because a record lacks the field ([AttributeError]) or holds an
    unhashable value ([TypeError]), [build_lookup], [build_subsets] and every
    call of [cull] on that field raise the same exception. *)
Theorem field_errors_are_shared (field : string) (self : DataRecords)
  (e : exception) :
  build_keyset field self = Raise e ->
  build_lookup field self = Raise e /\
  build_subsets field self = Raise e /\
  (forall K D, cull field K D self = Raise e) /\
  (e = AttributeError field \/ exists v, e = TypeError (Unhashable v)).
Proof.
  rewrite build_keyset_exact.
  destruct (record_keys field (records self)) as [ks|e'] eqn:Hks; simpl;
    [discriminate|].
  intros H; injection H as <-.
  assert (Hlud : build_lookup field self = Raise e').
  { unfold build_lookup, __elements__.
    rewrite build_lookup_tabulate, Hks. reflexivity. }
  split; [exact Hlud|]. split; [|split].
  - unfold build_subsets, __elements__.
    rewrite build_subsets_from_keys, Hks. reflexivity.
  - intros K D. unfold cull. rewrite Hlud. reflexivity.
  - apply (record_keys_raises field (records self)), Hks.
Qed.

Lemma select_append (all : list instance) (idxs : list nat) (i : nat)
  (r : instance) :
  nth_error all i = Some r ->
  select all (idxs ++ [i]) = select all idxs ++ [r].
Proof.
  intros H. unfold select. rewrite flat_map_app. simpl.
  rewrite H. reflexivity.
Qed.

Lemma map_select_append (all : list instance) (lud : lookup) (k : key)
  (i : nat) (r : instance) :
  nth_error all i = Some r ->
  map (fun e => (fst e, select all (snd e))) (lookup_append lud k i) =
  subsets_append (map (fun e => (fst e, select all (snd e))) lud) k r.
Proof.
  intros H. induction lud as [|[k0 idxs] lud IH]; simpl.
  - unfold select. simpl. rewrite H. reflexivity.
  - destruct (key_eq_dec k k0); simpl.
    + rewrite (select_append all idxs i r H). reflexivity.
    + rewrite IH. reflexivity.
Qed.

Lemma tabulate_select (all : list instance) (es : list instance) :
  forall (ks : list key) (pre : list instance) (lud : lookup),
    all = pre ++ es ->
    List.length es = List.length ks ->
    map (fun e => (fst e, select all (snd e)))
        (tabulate (List.length pre) ks lud) =
    tabulate_records es ks (map (fun e => (fst e, select all (snd e))) lud).
Proof.
  induction es as [|r es IH]; intros ks pre lud Hall Hlen;
    destruct ks as [|k ks]; simpl in *; try discriminate; [reflexivity|].
  rewrite <- (map_select_append all lud k (List.length pre) r).
  - specialize (IH ks (pre ++ [r]) (lookup_append lud k (List.length pre))).
    rewrite length_app in IH. simpl in IH.
    replace (List.length pre + 1) with (S (List.length pre)) in IH by lia.
    apply IH; [|lia]. rewrite <- app_assoc. exact Hall.
  - rewrite Hall, nth_error_app2 by lia.
    replace (List.length pre - List.length pre) with 0 by lia. reflexivity.
Qed.

(** X12: [build_subsets] is [build_lookup] with every position replaced by
    the record at that position: same values, same order, the records of
    each value in container order; the two raise the same exceptions. *)
Theorem build_subsets_selects (field : string) (self : DataRecords) :
  build_subsets field self =
  (lud <- build_lookup field self ;;
   Ok (map (fun e => (fst e, select (records self) (snd e))) lud)).
Proof.
  unfold build_subsets, build_lookup, __elements__.
  rewrite build_subsets_from_keys, build_lookup_tabulate.
  destruct (record_keys field (records self)) as [ks|e] eqn:Hks; simpl;
    [|reflexivity].
  f_equal. symmetry.
  apply (tabulate_select (records self) (records self) ks [] []);
    [reflexivity|].
  symmetry. apply (@for_each_length _ _ (field_key field)), Hks.
Qed.

(** ** What [cull] keeps *)

Lemma value_key_in_spec (k : key) (values : list pyval) :
  value_key_in k values = true <->
  exists v, In v values /\ hash_key v = Some k.
Proof.
  unfold value_key_in. rewrite existsb_exists. split.
  - intros (v & Hv & Hk). exists v. split; [exact Hv|].
    destruct (hash_key v) as [k'|]; [|discriminate].
    destruct (key_eq_dec k k'); [congruence | discriminate].
  - intros (v & Hv & Hk). exists v. split; [exact Hv|]. rewrite Hk.
    destruct (key_eq_dec k k); [reflexivity | congruence].
Qed.

Lemma keep_from_filter (A : Type) (p : A -> bool) (es : list A) :
  forall (i : nat) (inds : list nat),
    (forall j x, nth_error es j = Some x ->
                 existsb (Nat.eqb (i + j)) inds = p x) ->
    keep_from i inds es = filter p es.
Proof.
  induction es as [|e es IH]; intros i inds H; simpl; [reflexivity|].
  pose proof (H 0 e eq_refl) as H0. rewrite Nat.add_0_r in H0.
  rewrite H0, (IH (S i) inds).
  - reflexivity.
  - intros j x Hj. rewrite Nat.add_succ_comm. apply (H (S j) x Hj).
Qed.

Lemma record_key_at (field : string) (es : list instance) (ks : list key)
  (j : nat) (r : instance) :
  record_keys field es = Ok ks ->
  nth_error es j = Some r ->
  exists k, nth_error ks j = Some k /\ field_key field r = Ok k.
Proof.
  intros Hks Hr.
  assert (Hlen : List.length ks = List.length es)
    by (apply (@for_each_length _ _ (field_key field)), Hks).
  destruct (nth_error ks j) as [k|] eqn:Hk.
  - exists k. split; [reflexivity|].
    destruct (proj1 (record_keys_nth field es ks Hks j k) Hk)
      as (r' & Hr' & Hkey).
    congruence.
  - exfalso. apply nth_error_None in Hk.
    assert (j < List.length es) by (apply nth_error_Some; congruence).
    lia.
Qed.

(** Keeping the positions gathered for known values is filtering the records
    by their field value. *)
Lemma keep_phase_filter (field : string) (self : DataRecords)
  (ks : list key) (L : list pyval) :
  record_keys field (records self) = Ok ks ->
  (forall v, In v L -> exists k, hash_key v = Some k /\ In k ks) ->
  exists inds : list nat,
    fold_left (gather (tabulate 0 ks [])) L (Ok []) = Ok inds /\
    keep_from 0 inds (records self) = filter (field_in field L) (records self).
Proof.
  intros Hks Hknown.
  destruct (@build_lookup_keys field self ks Hks) as (_ & Hhas & Hidx).
  assert (Hlook : forall v, In v L ->
             exists k, hash_key v = Some k /\
                       lookup_has (tabulate 0 ks []) k = true).
  { intros v Hv. destruct (Hknown v Hv) as (k & Hk & Hin).
    exists k. split; [exact Hk|]. rewrite Hhas. apply key_mem_In, Hin. }
  destruct (@gather_fold (tabulate 0 ks []) L Hlook []) as (inds & Hfold & Hinds).
  exists inds. split; [exact Hfold|].
  apply keep_from_filter. intros j r Hr. simpl.
  destruct (record_key_at field _ ks j r Hks Hr) as (k & Hk & Hkey).
  unfold field_in. rewrite Hkey.
  apply eq_true_iff_eq.
  rewrite index_mem_In, Hinds, value_key_in_spec. split.
  - intros [[]|(v & k' & Hv & Hk' & Hj)].
    apply Hidx in Hj. rewrite Hk in Hj. injection Hj as <-.
    exists v. split; assumption.
  - intros (v & Hv & Hkv). right. exists v, k.
    repeat split; [exact Hv | exact Hkv | apply Hidx, Hk].
Qed.

Lemma fold_gather_raise (lud : lookup) (L : list pyval) (e : exception) :
  fold_left (gather lud) L (Raise e) = Raise e.
Proof. induction L as [|v L IH]; simpl; [reflexivity | exact IH]. Qed.

Lemma gather_ok_known (lud : lookup) (L : list pyval) :
  forall acc inds : list nat,
    fold_left (gather lud) L (Ok acc) = Ok inds ->
    forall v, In v L ->
      exists k, hash_key v = Some k /\ lookup_has lud k = true.
Proof.
  induction L as [|v0 L IH]; intros acc inds H v; simpl in *; [intros []|].
  unfold lookup_get in H.
  destruct (hash_key v0) as [k0|] eqn:Hk0;
    [|simpl in H; rewrite fold_gather_raise in H; discriminate].
  destruct (lookup_find lud k0) as [idxs|] eqn:Hfind;
    [|simpl in H; rewrite fold_gather_raise in H; discriminate].
  simpl in H. intros [<-|Hv].
  - exists k0. split; [exact Hk0|]. unfold lookup_has. rewrite Hfind.
    reflexivity.
  - apply (IH _ _ H v Hv).
Qed.

Lemma fold_to_set_raise (vs : list pyval) (e : exception) :
  fold_left to_set_add vs (Raise e) = Raise e.
Proof. induction vs as [|v vs IH]; simpl; [reflexivity | exact IH]. Qed.

Lemma to_set_ok_hashable (vs : list pyval) :
  forall acc removed : list key,
    fold_left to_set_add vs (Ok acc) = Ok removed -> Forall hashable vs.
Proof.
  induction vs as [|v vs IH]; intros acc removed H; simpl in *;
    [constructor|].
  destruct (hash_key v) as [k|] eqn:Hk;
    [|rewrite fold_to_set_raise in H; discriminate].
  constructor; [unfold hashable; congruence|].
  apply (IH _ _ H).
Qed.

(** What is known when [cull] returns. *)
Lemma cull_inversion (field : string) (K D : option (list pyval))
  (self self' : DataRecords) (n : nat) :
  cull field K D self = Ok (self', n) ->
  exists (ks : list key) (L : list pyval),
    record_keys field (records self) = Ok ks /\
    L <> [] /\
    (forall v, In v L -> exists k, hash_key v = Some k /\ In k ks) /\
    (forall r, In r (records self) ->
               field_in field L r = kept field K D r) /\
    records self' = filter (field_in field L) (records self) /\
    _ELE_CLS self' = _ELE_CLS self /\
    n = len self' /\
    (if provided D then Forall hashable (values_of D) else K = Some L).
Proof.
  unfold cull.
  destruct (build_lookup field self) as [lud|e] eqn:Hlud; [|discriminate].
  destruct (build_lookup_inv field self lud Hlud) as (ks & Hks & ->).
  destruct (@build_lookup_keys field self ks Hks) as (_ & Hhas & Hidx).
  cbn [bind].
  assert (Hfinish : forall L : list pyval,
    (if provided D then Forall hashable (values_of D) else K = Some L) ->
    (forall r, In r (records self) ->
               field_in field L r = kept field K D r) ->
    (if negb (provided (Some L)) then Raise (DataRecordsError no_criteria)
     else
       (inds <- fold_left (gather (tabulate 0 ks [])) (values_of (Some L))
                          (Ok []) ;;
        Ok (keep_inds inds self, len (keep_inds inds self)))) =
    Ok (self', n) ->
    exists (ks0 : list key) (L0 : list pyval),
      record_keys field (records self) = Ok ks0 /\
      L0 <> [] /\
      (forall v, In v L0 -> exists k, hash_key v = Some k /\ In k ks0) /\
      (forall r, In r (records self) ->
                 field_in field L0 r = kept field K D r) /\
      records self' = filter (field_in field L0) (records self) /\
      _ELE_CLS self' = _ELE_CLS self /\
      n = len self' /\
      (if provided D then Forall hashable (values_of D) else K = Some L0)).
  { intros L Hside Hkept H.
    destruct L as [|v0 L0]; [discriminate|]. cbn [provided negb values_of] in H.
    set (L := v0 :: L0) in *.
    destruct (fold_left (gather (tabulate 0 ks [])) L (Ok [])) as [inds|e]
      eqn:Hfold; [|discriminate].
    cbn [bind] in H. injection H as <- <-.
    assert (Hknown : forall v, In v L ->
               exists k, hash_key v = Some k /\ In k ks).
    { intros v Hv.
      destruct (gather_ok_known _ L [] inds Hfold v Hv) as (k & Hk & Hl).
      exists k. split; [exact Hk|]. rewrite Hhas in Hl.
      apply key_mem_In, Hl. }
    destruct (keep_phase_filter field self ks L Hks Hknown)
      as (inds' & Hfold' & Hfilter).
    rewrite Hfold in Hfold'. injection Hfold' as <-.
    exists ks, L. repeat split; try assumption.
    subst L; discriminate. }
  destruct (provided D) eqn:HD.
  - destruct (to_set (values_of D)) as [removed|e] eqn:Hset; [|discriminate].
    cbn [bind]. unfold to_set in Hset.
    pose proof (to_set_ok_hashable _ _ _ Hset) as Hhash.
    apply Hfinish; [exact Hhash|].
    intros r Hr. unfold kept. rewrite HD.
    apply In_nth_error in Hr. destruct Hr as (j & Hj).
    destruct (record_key_at field _ ks j r Hks Hj) as (k & Hk & Hkey).
    unfold field_in. rewrite Hkey.
    destruct (@to_set_fold (values_of D) Hhash []) as (removed' & Hset' & Hrem).
    rewrite Hset in Hset'. injection Hset' as <-.
    apply eq_true_iff_eq. rewrite negb_true_iff, value_key_in_spec. split.
    + intros (v & Hv & Hkv). apply in_map_iff in Hv.
      destruct Hv as (k' & <- & Hk'). rewrite hash_key_value in Hkv.
      injection Hkv as ->. apply filter_In in Hk'. destruct Hk' as [_ Hnot].
      apply negb_true_iff, key_mem_false in Hnot.
      destruct (value_key_in k (values_of D)) eqn:E; [|reflexivity].
      exfalso. apply Hnot, Hrem. right. apply value_key_in_spec, E.
    + intros Hnot. exists (key_value k). split; [|apply hash_key_value].
      apply in_map. apply filter_In. split.
      * apply lookup_keys_has. rewrite Hhas. apply key_mem_In.
        eapply nth_error_In; eauto.
      * apply negb_true_iff, key_mem_false. intros Hin.
        apply Hrem in Hin. destruct Hin as [[]|Hin].
        apply value_key_in_spec in Hin. congruence.
  - cbn [bind]. destruct K as [L|]; [|discriminate].
    apply Hfinish; [reflexivity|].
    intros r _. unfold kept. rewrite HD. reflexivity.
Qed.

Lemma filter_agree (A : Type) (p q : A -> bool) (xs : list A) :
  (forall x, In x xs -> p x = q x) -> filter p xs = filter q xs.
Proof.
  induction xs as [|x xs IH]; intros H; simpl; [reflexivity|].
  rewrite (H x (or_introl eq_refl)), IH; [reflexivity|].
  intros y Hy. apply H. right; exact Hy.
Qed.

(** X13: when [cull] returns, the container holds exactly the records whose
    field value is one of [keep_values], or with [remove_values] given is none
    of [remove_values], in their original order; the record class is
    unchanged and the returned number is the new length.  Duplicates and the
    order of the values play no role. *)
Theorem cull_filters_records (field : string) (K D : option (list pyval))
  (self self' : DataRecords) (n : nat) :
  cull field K D self = Ok (self', n) ->
  records self' = filter (kept field K D) (records self) /\
  _ELE_CLS self' = _ELE_CLS self /\
  n = List.length (records self').
Proof.
  intros H.
  destruct (cull_inversion field K D self self' n H)
    as (ks & L & _ & _ & _ & Hkept & Hrec & Hcls & Hn & _).
  split; [|split; [exact Hcls | exact Hn]].
  rewrite Hrec. apply filter_agree. exact Hkept.
Qed.

(** X14: [cull] never returns an empty container: when it returns, at least
    one record is left and no more than there were; so on an empty container
    every call of [cull] raises. *)
Theorem cull_never_empties (field : string) (K D : option (list pyval))
  (self self' : DataRecords) (n : nat) :
  cull field K D self = Ok (self', n) ->
  1 <= n /\ n <= len self /\ n = len self' /\ records self <> [].
Proof.
  intros H.
  destruct (cull_inversion field K D self self' n H)
    as (ks & L & Hks & HL & Hknown & _ & Hrec & _ & Hn & _).
  assert (Hsome : exists r, In r (records self')).
  { destruct L as [|v L]; [congruence|].
    destruct (Hknown v (or_introl eq_refl)) as (k & Hk & Hin).
    apply In_nth_error in Hin. destruct Hin as (j & Hj).
    destruct (proj1 (record_keys_nth field _ ks Hks j k) Hj)
      as (r & Hr & Hkey).
    exists r. rewrite Hrec. apply filter_In.
    split; [eapply nth_error_In; eauto|].
    unfold field_in. rewrite Hkey. apply value_key_in_spec.
    exists v. split; [left; reflexivity | exact Hk]. }
  destruct Hsome as (r & Hr).
  assert (Hle : List.length (records self') <= List.length (records self))
    by (rewrite Hrec; apply filter_length_le).
  unfold len, __elements__ in *. subst n.
  repeat split; try lia.
  - destruct (records self'); [destruct Hr | simpl; lia].
  - intros Hnil. rewrite Hnil in Hrec. simpl in Hrec.
    rewrite Hrec in Hr. destruct Hr.
Qed.

Lemma record_keys_members (field : string) (es : list instance)
  (ks : list key) :
  record_keys field es = Ok ks ->
  forall k, In k ks <-> exists r, In r es /\ field_key field r = Ok k.
Proof.
  intros Hks k. split.
  - intros Hk. apply In_nth_error in Hk. destruct Hk as (j & Hj).
    destruct (proj1 (record_keys_nth field es ks Hks j k) Hj)
      as (r & Hr & Hkey).
    exists r. split; [eapply nth_error_In; eauto | exact Hkey].
  - intros (r & Hr & Hkey). apply In_nth_error in Hr.
    destruct Hr as (j & Hj).
    apply (nth_error_In ks j).
    apply (record_keys_nth field es ks Hks). exists r. split; assumption.
Qed.

Lemma record_keys_sublist (field : string) (p : instance -> bool)
  (es : list instance) :
  forall ks : list key,
    record_keys field es = Ok ks ->
    exists ks', record_keys field (filter p es) = Ok ks'.
Proof.
  unfold record_keys.
  induction es as [|r es IH]; intros ks; simpl.
  - intros _. exists []. reflexivity.
  - destruct (field_key field r) as [k|e] eqn:Hk; simpl; [|discriminate].
    destruct (for_each (field_key field) es) as [ks0|e]; simpl;
      [|discriminate].
    intros _. destruct (IH ks0 eq_refl) as (ks' & Hks').
    destruct (p r); simpl.
    + rewrite Hk, Hks'. simpl. eexists; reflexivity.
    + exists ks'. exact Hks'.
Qed.

(** When [cull] returns: the field can be read on every record and either
    [remove_values] is given, hashable and misses some value of the field, or
    only [keep_values] is given and all its values occur. *)
Lemma cull_returns (field : string) (K D : option (list pyval))
  (self : DataRecords) (ks : list key) :
  record_keys field (records self) = Ok ks ->
  (if provided D
   then Forall hashable (values_of D) /\
        exists k, In k ks /\ value_key_in k (values_of D) = false
   else provided K = true /\
        forall v, In v (values_of K) ->
                  exists k, hash_key v = Some k /\ In k ks) ->
  exists (self' : DataRecords) (n : nat), cull field K D self = Ok (self', n).
Proof.
  intros Hks Hcond.
  destruct (@build_lookup_keys field self ks Hks) as (Hlud & Hhas & _).
  unfold cull. rewrite Hlud. cbn [bind].
  assert (Hfinish : forall L : list pyval,
    L <> [] ->
    (forall v, In v L -> exists k, hash_key v = Some k /\ In k ks) ->
    exists (self' : DataRecords) (n : nat),
      (if negb (provided (Some L)) then Raise (DataRecordsError no_criteria)
       else
         (inds <- fold_left (gather (tabulate 0 ks [])) (values_of (Some L))
                            (Ok []) ;;
          Ok (keep_inds inds self, len (keep_inds inds self)))) =
      Ok (self', n)).
  { intros L HL Hknown.
    destruct L as [|v0 L0]; [congruence|]. cbn [provided negb values_of].
    destruct (keep_phase_filter field self ks (v0 :: L0) Hks Hknown)
      as (inds & -> & _).
    cbn [bind]. eexists; eexists; reflexivity. }
  destruct (provided D) eqn:HD.
  - destruct Hcond as (Hhash & k & Hk & Hnot).
    unfold to_set.
    destruct (@to_set_fold (values_of D) Hhash []) as (removed & -> & Hrem).
    cbn [bind]. apply Hfinish.
    + assert (Hin : In (key_value k)
                       (map key_value
                            (filter (fun k0 => negb (key_mem k0 removed))
                                    (lookup_keys (tabulate 0 ks []))))).
      { apply in_map, filter_In. split.
        - apply lookup_keys_has. rewrite Hhas. apply key_mem_In, Hk.
        - apply negb_true_iff, key_mem_false. intros Hr.
          apply Hrem in Hr. destruct Hr as [[]|Hr].
          apply value_key_in_spec in Hr. congruence. }
      intros Hnil. rewrite Hnil in Hin. destruct Hin.
    + intros v Hv. apply in_map_iff in Hv. destruct Hv as (k' & <- & Hk').
      apply filter_In in Hk'. destruct Hk' as [Hk' _].
      apply lookup_keys_has in Hk'. rewrite Hhas in Hk'.
      exists k'. split; [apply hash_key_value | apply key_mem_In, Hk'].
  - destruct Hcond as (HK & Hknown).
    cbn [bind]. destruct K as [L|]; [|discriminate].
    apply Hfinish; [|exact Hknown].
    intros ->. discriminate.
Qed.

Lemma filter_twice (A : Type) (p : A -> bool) (xs : list A) :
  filter p (filter p xs) = filter p xs.
Proof.
  induction xs as [|x xs IH]; simpl; [reflexivity|].
  destruct (p x) eqn:E; simpl; [rewrite E, IH | rewrite IH]; reflexivity.
Qed.

(** X15: [cull] is idempotent: repeating a call that returned, with the same
    arguments, returns again and leaves the container and the returned
    length as they are. *)
Theorem cull_twice (field : string) (K D : option (list pyval))
  (self self' : DataRecords) (n : nat) :
  cull field K D self = Ok (self', n) ->
  cull field K D self' = Ok (self', n).
Proof.
  intros H.
  destruct (cull_inversion field K D self self' n H)
    as (ks & L & Hks & HL & Hknown & Hkept & Hrec & Hcls & Hn & Hside).
  destruct (record_keys_sublist field (field_in field L) (records self) ks Hks)
    as (ks' & Hks').
  rewrite <- Hrec in Hks'.
  assert (Hmem : forall k, In k ks' <->
             exists r, In r (records self) /\ field_in field L r = true /\
                       field_key field r = Ok k).
  { intros k. rewrite (record_keys_members field _ ks' Hks' k), Hrec.
    split; intros (r & Hr & Hkey); exists r.
    - apply filter_In in Hr. destruct Hr. repeat split; assumption.
    - destruct Hkey. split; [apply filter_In; split|]; assumption. }
  assert (Hlisted : forall v k,
             In v L -> hash_key v = Some k -> In k ks -> In k ks').
  { intros v k Hv Hk Hin. apply Hmem.
    apply (record_keys_members field _ ks Hks) in Hin.
    destruct Hin as (r & Hr & Hkey). exists r.
    repeat split; try assumption.
    unfold field_in. rewrite Hkey. apply value_key_in_spec.
    exists v. split; assumption. }
  destruct (cull_returns field K D self' ks' Hks') as (self'' & n' & H').
  { destruct (provided D) eqn:HD.
    - split; [exact Hside|].
      destruct L as [|v L0]; [congruence|].
      destruct (Hknown v (or_introl eq_refl)) as (k & Hk & Hin).
      exists k. split; [apply (Hlisted v k (or_introl eq_refl) Hk Hin)|].
      apply (record_keys_members field _ ks Hks) in Hin.
      destruct Hin as (r & Hr & Hkey).
      assert (Hv : field_in field (v :: L0) r = true).
      { unfold field_in. rewrite Hkey. apply value_key_in_spec.
        exists v. split; [left; reflexivity | exact Hk]. }
      rewrite (Hkept r Hr) in Hv. unfold kept in Hv. rewrite HD in Hv.
      unfold field_in in Hv. rewrite Hkey in Hv.
      apply negb_true_iff in Hv. exact Hv.
    - subst K. split; [destruct L; [congruence | reflexivity]|].
      intros v Hv. destruct (Hknown v Hv) as (k & Hk & Hin).
      exists k. split; [exact Hk | apply (Hlisted v k Hv Hk Hin)]. }
  rewrite H'. f_equal.
  destruct (cull_inversion field K D self' self'' n' H')
    as (ks2 & L2 & _ & _ & _ & Hkept2 & Hrec2 & Hcls2 & Hn2 & _).
  assert (Hsame : records self'' = records self').
  { rewrite Hrec2.
    rewrite (filter_agree _ (field_in field L2) (kept field K D)
               (records self') Hkept2).
    rewrite Hrec at 1 2.
    rewrite (filter_agree _ (field_in field L) (kept field K D)
               (records self) Hkept).
    apply filter_twice. }
  assert (Heq : self'' = self').
  { destruct self'', self'; simpl in *. congruence. }
  rewrite Hn2, Hn, Heq. reflexivity.
Qed.

Lemma filter_none (A : Type) (p : A -> bool) (xs : list A) :
  (forall x, In x xs -> p x = false) -> filter p xs = [].
Proof.
  induction xs as [|x xs IH]; intros H; simpl; [reflexivity|].
  rewrite (H x (or_introl eq_refl)). apply IH.
  intros y Hy. apply H. right; exact Hy.
Qed.

(** X16: when the field can be read, [cull] raises the error "Either
    keep_values or remove_values must be provided" in two cases: when neither
    argument is given or both are empty, and also when [remove_values] is
    given (and hashable) but covers every value of the field, an empty
    container included. *)
Theorem cull_no_criteria (field : string) (K D : option (list pyval))
  (self : DataRecords) (lud : lookup) :
  build_lookup field self = Ok lud ->
  (provided K = false -> provided D = false ->
   cull field K D self = Raise (DataRecordsError no_criteria)) /\
  (provided D = true ->
   Forall hashable (values_of D) ->
   (forall k, In k (lookup_keys lud) ->
              value_key_in k (values_of D) = true) ->
   cull field K D self = Raise (DataRecordsError no_criteria)).
Proof.
  intros Hlud. unfold cull. rewrite Hlud. cbn [bind]. split.
  - intros HK HD. rewrite HD. cbn [bind]. rewrite HK. reflexivity.
  - intros HD Hhash Hcover. rewrite HD. unfold to_set.
    destruct (@to_set_fold (values_of D) Hhash []) as (removed & -> & Hrem).
    cbn [bind]. rewrite filter_none; [reflexivity|].
    intros k Hk. apply negb_false_iff, key_mem_In, Hrem. right.
    apply value_key_in_spec, Hcover, Hk.
Qed.

(** ** The further properties on three labeled videos *)

Import RecordExamples.

Lemma from_dict_reads_declared_names_witness :
  from_dict LabeledVideoRecord
            (JDict [("label", JStr "cat"); ("extra", JInt 3);
                    ("video_path", JStr "a.mp4")]) =
  from_dict LabeledVideoRecord
            (JDict [("video_path", JStr "a.mp4"); ("label", JStr "cat")]).
Proof.
  apply from_dict_reads_declared_names.
  intros k [<-|[<-|[<-|[]]]]; reflexivity.
Defined.

Lemma build_lookup_positions_witness :
  NoDup [KStr "cat"; KStr "dog"] /\
  StronglySorted lt [0; 2].
Proof.
  destruct (build_lookup_positions
              "label" videos [(KStr "cat", [0; 2]); (KStr "dog", [1])]
              eq_refl) as (Hkeys & Hlists & _).
  split; [exact Hkeys|].
  destruct (Hlists (KStr "cat") [0; 2] eq_refl) as (_ & Hsorted & _).
  exact Hsorted.
Defined.

Lemma build_keyset_distinct_witness :
  NoDup [PStr "cat"; PStr "dog"] /\
  List.length [PStr "cat"; PStr "dog"] <= len videos.
Proof.
  destruct (build_keyset_distinct "label" videos [PStr "cat"; PStr "dog"]
              eq_refl) as (Hnodup & Hlen & _).
  split; assumption.
Defined.

Lemma field_errors_are_shared_witness :
  build_lookup "group" videos = Raise (AttributeError "group") /\
  build_subsets "group" videos = Raise (AttributeError "group") /\
  cull "group" (Some [None_]) None videos = Raise (AttributeError "group").
Proof.
  destruct (field_errors_are_shared "group" videos (AttributeError "group")
              eq_refl) as (Hlud & Hsss & Hcull & _).
  split; [exact Hlud | split; [exact Hsss | apply Hcull]].
Defined.

Lemma cull_filters_records_witness :
  records (DataRecords__init__ (PClass LabeledVideoRecord)
                               [cat_video; cat_clip]) =
  filter (kept "label" (Some [PStr "cat"; PStr "cat"]) None) (records videos).
Proof.
  destruct (cull_filters_records
              "label" (Some [PStr "cat"; PStr "cat"]) None videos
              (DataRecords__init__ (PClass LabeledVideoRecord)
                                   [cat_video; cat_clip]) 2 eq_refl)
    as (Hrec & _).
  exact Hrec.
Defined.

Lemma cull_never_empties_witness : 1 <= 1 /\ 1 <= len videos.
Proof.
  destruct (cull_never_empties
              "label" None (Some [PStr "cat"]) videos
              (DataRecords__init__ (PClass LabeledVideoRecord) [dog_video])
              1 eq_refl) as (Hone & Hle & _).
  split; assumption.
Defined.

Lemma cull_twice_witness :
  cull "label" None (Some [PStr "cat"])
       (DataRecords__init__ (PClass LabeledVideoRecord) [dog_video]) =
  Ok (DataRecords__init__ (PClass LabeledVideoRecord) [dog_video], 1).
Proof.
  apply (cull_twice "label" None (Some [PStr "cat"]) videos).
  reflexivity.
Defined.

Lemma cull_no_criteria_witness :
  cull "label" None None videos = Raise (DataRecordsError no_criteria) /\
  cull "label" None (Some [PStr "dog"; PStr "cat"; PStr "bird"]) videos =
  Raise (DataRecordsError no_criteria).
Proof.
  split.
  - destruct (cull_no_criteria
                "label" None None videos
                [(KStr "cat", [0; 2]); (KStr "dog", [1])] eq_refl)
      as (Hneither & _).
    apply Hneither; reflexivity.
  - destruct (cull_no_criteria
                "label" None (Some [PStr "dog"; PStr "cat"; PStr "bird"])
                videos [(KStr "cat", [0; 2]); (KStr "dog", [1])] eq_refl)
      as (_ & Hcovered).
    apply Hcovered; [reflexivity | |].
    + repeat constructor; discriminate.
    + intros k [<-|[<-|[]]]; reflexivity.
Defined.

End RecordsMore.
